(** * network_calculations: the configuration parser and the statistics script

    A shallow embedding of [reconstruction/util/ConfigParser.py] and of
    [random_networks/synthesize_network_stats.py], with the properties their
    specification states about them.  The two programs come first, each in a
    module of its name; the properties follow.

    - Python values are the ones [json.load] can build: [None], [bool],
      [int], [float], [str], [list] and [dict].  A [dict] with string keys is
      a [gmap string value]: Python compares dicts by their entries, not by
      the order of insertion, and so does the equality of [gmap].
    - An exception is a value of [exn]; code that can raise returns a
      [result], and the [x <- e ;; k] notation sequences statements so that
      the first exception raised is the one that propagates.
    - The file system and the open file handles are an explicit [world]
      threaded through [parseConfigFile].
    - A [float] is a rational number, an infinity or NaN: every finite
      float is a rational, and the programs only carry floats around and
      compare them, so nothing depends on which rationals are floats.
    - [sorted] is the stable sort its documentation describes; the
      dictionary of a network is the list of its items in their order. *)

From Stdlib Require Import ZArith QArith String Ascii.
From stdpp Require Import base option list gmap strings fin_maps.

Set Warnings "-register-all".

Local Open Scope string_scope.
Local Open Scope list_scope.

(** * Exceptions and results

    The three exception classes of the parser, and the built-in ones under
    the name of their class. *)

Definition dquote : string := String "034"%char EmptyString.

Inductive exn :=
| ExpectedValueError (message : string)
| InvalidTypeError (message : string)
| ValidationFailedError (message : string)
| BuiltinError (cls : string).

Inductive result (A : Type) :=
| Ok (a : A)
| Raise (e : exn).
Arguments Ok {A} a.
Arguments Raise {A} e.

Definition bind {A B} (m : result A) (k : A -> result B) : result B :=
  match m with
  | Ok a => k a
  | Raise e => Raise e
  end.

Notation "x <- m ;; k" := (bind m (fun x => k))
  (at level 100, m at next level, right associativity).

Definition raised {A} (m : result A) : Prop := exists e, m = Raise e.

(** * Floats

    The values of [float]: the finite ones by the rational they denote (the
    two zeros, which compare equal, are one value), [float('inf')],
    [float('-inf')] and [float('nan')].  [json.load] builds
    the last three from the tokens Infinity, -Infinity and NaN, and [pickle]
    stores them as they are. *)
Inductive pyfloat :=
| Real (x : Q)
| Infinity
| NegInfinity
| NaN.

(** * reconstruction/util/ConfigParser.py *)

Module ConfigParser.

(** ** Python values and their classes

    The values are those [json.load] builds; [pytype] holds their classes,
    among which an item names the types it accepts. *)

Inductive value :=
| VNone
| VBool (b : bool)
| VInt (n : Z)
| VFloat (x : pyfloat)
| VStr (s : string)
| VList (l : list value)
| VDict (d : gmap string value).

Inductive pytype := NoneType | bool_ | int | float | str | list_ | dict.

Definition type (v : value) : pytype :=
  match v with
  | VNone => NoneType
  | VBool _ => bool_
  | VInt _ => int
  | VFloat _ => float
  | VStr _ => str
  | VList _ => list_
  | VDict _ => dict
  end.

Definition pytype_eqb (a b : pytype) : bool :=
  match a, b with
  | NoneType, NoneType | bool_, bool_ | int, int | float, float
  | str, str | list_, list_ | dict, dict => true
  | _, _ => false
  end.

(** [bool] is a subclass of [int]; the other classes are unrelated. *)
Definition issubclass (a b : pytype) : bool :=
  match a, b with
  | bool_, int => true
  | _, _ => pytype_eqb a b
  end.

Definition isinstance (v : value) (t : pytype) : bool := issubclass (type v) t.

Definition class_name (t : pytype) : string :=
  match t with
  | NoneType => "NoneType"
  | bool_ => "bool"
  | int => "int"
  | float => "float"
  | str => "str"
  | list_ => "list"
  | dict => "dict"
  end.

(** [str(t)] and [repr(t)] of a class, and [str(l)] of a list of classes. *)
Definition repr_type (t : pytype) : string := "<class '" +:+ class_name t +:+ "'>".

Fixpoint join (sep : string) (l : list string) : string :=
  match l with
  | [] => EmptyString
  | [s] => s
  | s :: rest => s +:+ sep +:+ join sep rest
  end.

Definition repr_types (l : list pytype) : string :=
  "[" +:+ join ", " (repr_type <$> l) +:+ "]".

(** ** The exception classes of the parser (lines 3-17) *)

Definition ExpectedValueError_init (key : string) : exn :=
  ExpectedValueError
    ("Expected a value for " +:+ dquote +:+ key +:+ dquote +:+ ", but no value was given.").

Definition InvalidTypeError_init (key expectedType recievedType : string) (typeList : bool) : exn :=
  if typeList then
    InvalidTypeError
      ("Invalid type for " +:+ dquote +:+ key +:+ dquote +:+ ". Expected one of " +:+ dquote
         +:+ expectedType +:+ dquote +:+ ", but got " +:+ dquote +:+ recievedType +:+ dquote +:+ ".")
  else
    InvalidTypeError
      ("Invalid type for " +:+ dquote +:+ key +:+ dquote +:+ ". Expected " +:+ dquote
         +:+ expectedType +:+ dquote +:+ ", but got " +:+ dquote +:+ recievedType +:+ dquote +:+ ".").

(** ** The [in] and subscript operators on a decoded value

    [ConfigItem.parse] applies [self.key in jsonConfig] and
    [jsonConfig[self.key]] to whatever the caller passes.  On a dict they are
    the lookup; a list or a string supports [in] but not a string subscript;
    the other values support neither. *)

Fixpoint is_substring (needle hay : string) : bool :=
  String.prefix needle hay
  || match hay with
     | EmptyString => false
     | String _ rest => is_substring needle rest
     end.

Definition is_str (key : string) (v : value) : bool :=
  match v with
  | VStr s => String.eqb s key
  | _ => false
  end.

Definition not_iterable : exn := BuiltinError "TypeError".

Definition not_subscriptable : exn := BuiltinError "TypeError".

Definition py_contains (container : value) (key : string) : result bool :=
  match container with
  | VDict d => Ok (bool_decide (is_Some (d !! key)))
  | VList l => Ok (existsb (is_str key) l)
  | VStr s => Ok (is_substring key s)
  | _ => Raise not_iterable
  end.

Definition py_getitem (container : value) (key : string) : result value :=
  match container with
  | VDict d =>
      match d !! key with
      | Some v => Ok v
      | None => Raise (BuiltinError "KeyError")
      end
  | _ => Raise not_subscriptable
  end.

(** ** ConfigItem and Config (lines 19-97) *)

(** [ConfigItem.default]: an instance of the [NoDefault] marker class or a
    value.  (The [UseSubDefaults] marker means something to a
    [TypeOrSubconfigConfigItem] only, and only there can it be declared.) *)
Inductive default :=
| NoDefault
| Default (v : value).

(** The default of a [TypeOrSubconfigConfigItem] can also be the
    [UseSubDefaults] marker, which its [getDefault] looks for. *)
Inductive subdefault :=
| UseSubDefaults
| Own (d : default).

Inductive ConfigItem :=
| MultiTypeConfigItem (key : string) (possibleTypes : list pytype) (default_ : default)
| TypeOrSubconfigConfigItem (key : string) (type_ : pytype) (subconfig : Config) (default_ : subdefault)
with Config :=
| mkConfig (configItems : list ConfigItem)
           (validator : option (gmap string value -> result (gmap string value))).

Definition TypedConfigItem (key : string) (expectedType : pytype) (default_ : default) : ConfigItem :=
  MultiTypeConfigItem key [expectedType] default_.

Definition key (item : ConfigItem) : string :=
  match item with
  | MultiTypeConfigItem k _ _ => k
  | TypeOrSubconfigConfigItem k _ _ _ => k
  end.

Definition configItems (c : Config) : list ConfigItem :=
  match c with mkConfig items _ => items end.

Definition validator (c : Config) : option (gmap string value -> result (gmap string value)) :=
  match c with mkConfig _ v => v end.

(** The loop shared by [Config.getDefault] and [Config.parse]:
    [values = {}; for item in items: values[item.key] = f(item)]. *)
Definition collect (f : ConfigItem -> result value) :
  list ConfigItem -> gmap string value -> result (gmap string value) :=
  fix loop items values :=
    match items with
    | [] => Ok values
    | item :: rest => v <- f item ;; loop rest (<[key item := v]> values)
    end.

(** [ConfigItem.getDefault] (lines 30-33). *)
Definition ConfigItem_getDefault (k : string) (d : default) : result value :=
  match d with
  | NoDefault => Raise (ExpectedValueError_init k)
  | Default v => Ok v
  end.

(** [getDefault] of an item, with the override of lines 64-67, and
    [Config.getDefault] (lines 81-85). *)
Fixpoint getDefault (item : ConfigItem) : result value :=
  match item with
  | MultiTypeConfigItem k _ d => ConfigItem_getDefault k d
  | TypeOrSubconfigConfigItem k _ sub d =>
      match d with
      | UseSubDefaults => defaults <- Config_getDefault sub ;; Ok (VDict defaults)
      | Own d' => ConfigItem_getDefault k d'
      end
  end
with Config_getDefault (c : Config) : result (gmap string value) :=
  match c with
  | mkConfig items _ => collect getDefault items ∅
  end.

(** [ConfigItem.parse] (lines 38-41), over the two methods a subclass
    provides. *)
Definition ConfigItem_parse (k : string) (_parse : value -> result value)
    (getDefault_ : result value) (jsonConfig : value) : result value :=
  present <- py_contains jsonConfig k ;;
  if present then jsonValue <- py_getitem jsonConfig k ;; _parse jsonValue
  else getDefault_.

(** [_parse] of an item (lines 48-52 and 69-74) and [Config.parse]
    (lines 87-91). *)
Fixpoint _parse (item : ConfigItem) (jsonValue : value) : result value :=
  match item with
  | MultiTypeConfigItem k possibleTypes _ =>
      if existsb (isinstance jsonValue) possibleTypes then Ok jsonValue
      else Raise (InvalidTypeError_init k (repr_types possibleTypes) (repr_type (type jsonValue)) true)
  | TypeOrSubconfigConfigItem k t sub _ =>
      if isinstance jsonValue t then Ok jsonValue
      else if isinstance jsonValue dict then
        values <- Config_parse sub jsonValue ;; Ok (VDict values)
      else Raise (InvalidTypeError_init k (repr_type t) (repr_type (type jsonValue)) false)
  end
with Config_parse (c : Config) (jsonConfig : value) : result (gmap string value) :=
  match c with
  | mkConfig items _ =>
      collect (fun item => ConfigItem_parse (key item) (_parse item) (getDefault item) jsonConfig)
              items ∅
  end.

Definition parse (item : ConfigItem) (jsonConfig : value) : result value :=
  ConfigItem_parse (key item) (_parse item) (getDefault item) jsonConfig.

(** [Config.validate] (lines 93-97) and [parseConfig] (lines 113-116). *)
Definition Config_validate (c : Config) (config : gmap string value) : result (gmap string value) :=
  match validator c with
  | Some f => f config
  | None => Ok config
  end.

Definition parseConfig (configSpec : Config) (jsonConfig : value) : result (gmap string value) :=
  config <- Config_parse configSpec jsonConfig ;;
  config <- Config_validate configSpec config ;;
  Ok config.

(** ** Decoding JSON with [object_pairs_hook] (lines 99-111)

    [json] is a document as the decoder of the standard library scans it: an
    object is the sequence of its members in the order of the text, a key
    may occur more than once.  [json_loads] is [json.loads] with an
    [object_pairs_hook]: the members of an object are decoded from left to
    right, nested objects first, and the hook receives the decoded pairs
    when the object is complete. *)

Inductive json :=
| JNull
| JBool (b : bool)
| JInt (n : Z)
| JFloat (x : pyfloat)
| JString (s : string)
| JArray (elements : list json)
| JObject (members : list (string * json)).

(** Decoding the elements of an array, and the members of an object, from
    left to right with the decoder [f] of one value. *)
Definition each_element (f : json -> result value) : list json -> result (list value) :=
  fix each l :=
    match l with
    | [] => Ok []
    | x :: rest => v <- f x ;; vs <- each rest ;; Ok (v :: vs)
    end.

Definition each_member (f : json -> result value) :
  list (string * json) -> result (list (string * value)) :=
  fix each l :=
    match l with
    | [] => Ok []
    | (k, x) :: rest => v <- f x ;; ps <- each rest ;; Ok ((k, v) :: ps)
    end.

Fixpoint json_loads (object_pairs_hook : list (string * value) -> result (gmap string value))
    (doc : json) : result value :=
  match doc with
  | JNull => Ok VNone
  | JBool b => Ok (VBool b)
  | JInt n => Ok (VInt n)
  | JFloat x => Ok (VFloat x)
  | JString s => Ok (VStr s)
  | JArray elements =>
      values <- each_element (json_loads object_pairs_hook) elements ;;
      Ok (VList values)
  | JObject members =>
      orderedPairs <- each_member (json_loads object_pairs_hook) members ;;
      d <- object_pairs_hook orderedPairs ;;
      Ok (VDict d)
  end.

Definition duplicate_key_message (k : string) : string :=
  "The key " +:+ k
  +:+ " was used multiple times in the same dictionary in the config file. Each key should be unique.".

(** The loop of [errorOnDuplicateKeys], from the dict built so far. *)
Fixpoint errorOnDuplicateKeys_from (d : gmap string value) (orderedPairs : list (string * value))
    : result (gmap string value) :=
  match orderedPairs with
  | [] => Ok d
  | (k, v) :: rest =>
      if bool_decide (is_Some (d !! k)) then
        Raise (ValidationFailedError (duplicate_key_message k))
      else errorOnDuplicateKeys_from (<[k := v]> d) rest
  end.

Definition errorOnDuplicateKeys (orderedPairs : list (string * value)) : result (gmap string value) :=
  errorOnDuplicateKeys_from ∅ orderedPairs.

(** ** Files and [parseConfigFile] (lines 118-123)

    A file holds a JSON document or a text the decoder rejects.  The world
    records the files and the handles that are open, each with the path it
    was opened on. *)

Inductive file_text :=
| Document (doc : json)
| Malformed.

Record world := mkWorld {
  files : gmap string file_text;
  open_handles : gmap nat string;
  next_handle : nat
}.

Definition io (A : Type) : Type := world -> result A * world.

Definition io_bind {A B} (m : io A) (k : A -> io B) : io B :=
  fun w =>
    match m w with
    | (Ok a, w') => k a w'
    | (Raise e, w') => (Raise e, w')
    end.

Definition io_pure {A} (r : result A) : io A := fun w => (r, w).

Notation "x <~ m ;; k" := (io_bind m (fun x => k))
  (at level 100, m at next level, right associativity).

Definition open_ (path : string) : io nat :=
  fun w =>
    match files w !! path with
    | None => (Raise (BuiltinError "FileNotFoundError"), w)
    | Some _ =>
        (Ok (next_handle w),
         mkWorld (files w) (<[next_handle w := path]> (open_handles w)) (S (next_handle w)))
    end.

Definition close (fp : nat) : io unit :=
  fun w => (Ok tt, mkWorld (files w) (delete fp (open_handles w)) (next_handle w)).

Definition json_load (fp : nat)
    (object_pairs_hook : list (string * value) -> result (gmap string value)) : io value :=
  fun w =>
    match open_handles w !! fp with
    | None => (Raise (BuiltinError "ValueError"), w)
    | Some path =>
        match files w !! path with
        | Some (Document doc) => (json_loads object_pairs_hook doc, w)
        | Some Malformed => (Raise (BuiltinError "JSONDecodeError"), w)
        | None => (Raise (BuiltinError "OSError"), w)
        end
    end.

Definition parseConfigFile (configSpec : Config) (configFilePath : string) : io (gmap string value) :=
  configFile <~ open_ configFilePath ;;
  jsonConfig <~ json_load configFile errorOnDuplicateKeys ;;
  _ <~ close configFile ;;
  io_pure (parseConfig configSpec jsonConfig).

(** The handle [fp] is open in the world [w]. *)
Definition is_open (fp : nat) (w : world) : Prop := is_Some (open_handles w !! fp).

(** ** Induction over a schema

    A [Config] holds a list of items and an item may hold a [Config]: the
    principle proves a property of items and one of schemas together. *)

Section Config_induction.
Variable P : ConfigItem -> Prop.
Variable R : Config -> Prop.
Hypothesis P_multi : forall k ts d, P (MultiTypeConfigItem k ts d).
Hypothesis P_sub : forall k t sub d, R sub -> P (TypeOrSubconfigConfigItem k t sub d).
Hypothesis R_config : forall items v, Forall P items -> R (mkConfig items v).

Fixpoint ConfigItem_induction (item : ConfigItem) : P item :=
  match item with
  | MultiTypeConfigItem k ts d => P_multi k ts d
  | TypeOrSubconfigConfigItem k t sub d => P_sub k t sub d (Config_induction sub)
  end
with Config_induction (c : Config) : R c :=
  match c with
  | mkConfig items v =>
      R_config items v
        ((fix all (l : list ConfigItem) : Forall P l :=
            match l with
            | [] => List.Forall_nil P
            | item :: rest => @List.Forall_cons _ P item rest (ConfigItem_induction item) (all rest)
            end) items)
  end.
End Config_induction.

Section json_induction.
Variable P : json -> Prop.
Hypothesis P_null : P JNull.
Hypothesis P_bool : forall b, P (JBool b).
Hypothesis P_int : forall n, P (JInt n).
Hypothesis P_float : forall x, P (JFloat x).
Hypothesis P_string : forall s, P (JString s).
Hypothesis P_array : forall elements, Forall P elements -> P (JArray elements).
Hypothesis P_object : forall members, Forall (fun m => P m.2) members -> P (JObject members).

Fixpoint json_induction (doc : json) : P doc :=
  match doc with
  | JNull => P_null
  | JBool b => P_bool b
  | JInt n => P_int n
  | JFloat x => P_float x
  | JString s => P_string s
  | JArray elements =>
      P_array elements
        ((fix all (l : list json) : Forall P l :=
            match l with
            | [] => List.Forall_nil P
            | x :: rest => @List.Forall_cons _ P x rest (json_induction x) (all rest)
            end) elements)
  | JObject members =>
      P_object members
        ((fix all (l : list (string * json)) : Forall (fun m => P m.2) l :=
            match l with
            | [] => List.Forall_nil (fun m => P m.2)
            | m :: rest =>
                @List.Forall_cons _ (fun m => P m.2) m rest (json_induction m.2) (all rest)
            end) members)
  end.
End json_induction.

(** ** The vocabulary of the properties *)

(** An item declared without a default: the [NoDefault] marker is still in
    place. *)
Definition has_no_default (item : ConfigItem) : bool :=
  match item with
  | MultiTypeConfigItem _ _ NoDefault => true
  | TypeOrSubconfigConfigItem _ _ _ (Own NoDefault) => true
  | _ => false
  end.

Definition accepted_types (item : ConfigItem) : list pytype :=
  match item with
  | MultiTypeConfigItem _ possibleTypes _ => possibleTypes
  | TypeOrSubconfigConfigItem _ t _ _ => [t]
  end.

(** The declared defaults pass the type check of their item, and the keys of
    a schema are distinct; the same holds in a nested schema whose defaults
    are used, unless the scalar type already accepts a dict. *)
Fixpoint default_accepted (item : ConfigItem) : bool :=
  match item with
  | MultiTypeConfigItem _ _ NoDefault => true
  | MultiTypeConfigItem _ possibleTypes (Default v) => existsb (isinstance v) possibleTypes
  | TypeOrSubconfigConfigItem _ _ _ (Own NoDefault) => true
  | TypeOrSubconfigConfigItem _ t _ (Own (Default v)) => isinstance v t
  | TypeOrSubconfigConfigItem _ t sub UseSubDefaults => issubclass dict t || defaults_accepted sub
  end
with defaults_accepted (c : Config) : bool :=
  match c with
  | mkConfig items _ => bool_decide (NoDup (key <$> items)) && forallb default_accepted items
  end.

(** [k] occurs at two positions of a list of keys. *)
Definition repeated (k : string) (keys : list string) : Prop :=
  exists i j, i < j /\ keys !! i = Some k /\ keys !! j = Some k.

(** [k] is used twice in one object of the document, at any nesting level. *)
Inductive duplicated (k : string) : json -> Prop :=
| duplicated_here members :
    repeated k members.*1 -> duplicated k (JObject members)
| duplicated_member members m :
    m ∈ members -> duplicated k m.2 -> duplicated k (JObject members)
| duplicated_element elements x :
    x ∈ elements -> duplicated k x -> duplicated k (JArray elements).

(** What decoding with the hook comes to: a value when no object of the
    document uses a key twice, and otherwise the ValidationFailedError for a
    key that some object uses twice. *)
Definition decoded_or_rejected (doc : json) : Prop :=
  match json_loads errorOnDuplicateKeys doc with
  | Ok _ => forall k, ~ duplicated k doc
  | Raise e => exists k, duplicated k doc /\ e = ValidationFailedError (duplicate_key_message k)
  end.

(** The world after [open]: the new handle is open on the path. *)
Definition opened (path : string) (w : world) : world :=
  mkWorld (files w) (<[next_handle w := path]> (open_handles w)) (S (next_handle w)).

(** The world after [open] and [close] of that handle. *)
Definition opened_and_closed (path : string) (w : world) : world :=
  mkWorld (files w) (delete (next_handle w) (<[next_handle w := path]> (open_handles w)))
          (S (next_handle w)).

(** An accepted default is returned by [_parse] as it is, and the defaults
    of a schema with accepted defaults parse to themselves. *)
Definition default_reparsed (item : ConfigItem) : Prop :=
  default_accepted item = true -> forall v, getDefault item = Ok v -> _parse item v = Ok v.

Definition defaults_reparsed (c : Config) : Prop :=
  defaults_accepted c = true ->
  forall defaults, Config_getDefault c = Ok defaults -> Config_parse c (VDict defaults) = Ok defaults.

(** ** Schemas and files of the examples *)

Definition two_required : Config :=
  mkConfig [TypedConfigItem "a" int NoDefault; TypedConfigItem "b" int NoDefault] None.

Definition port_schema : Config :=
  mkConfig [TypedConfigItem "port" int (Default (VInt 80))] None.

Definition host_schema : Config :=
  mkConfig [TypedConfigItem "host" str (Default (VStr "localhost"))] None.

(** A validator that insists on a port and then adds a derived entry. *)
Definition port_validator (config : gmap string value) : result (gmap string value) :=
  match config !! "port" with
  | Some (VInt 0) => Raise (ValidationFailedError "port 0 is reserved")
  | _ => Ok (<["validated" := VBool true]> config)
  end.

Definition validated_port_schema : Config :=
  mkConfig [TypedConfigItem "port" int (Default (VInt 80))] (Some port_validator).

Definition optional_count : Config :=
  mkConfig [TypedConfigItem "count" int (Default VNone)] None.

Definition server_schema : Config :=
  mkConfig [TypedConfigItem "name" str (Default (VStr "node"));
            TypeOrSubconfigConfigItem "db" str host_schema UseSubDefaults;
            MultiTypeConfigItem "limit" [int; NoneType] (Default VNone)] None.

Definition duplicate_a : json := JObject [("a", JInt 1); ("a", JInt 2)].

Definition disk : world :=
  mkWorld {[ "settings.json" := Document duplicate_a;
             "nested.json" := Document (JObject [("outer", JArray [JInt 0; duplicate_a])]) ]}
          ∅ 0.

(** ** Further vocabulary: defaults that resolve, schemas that are well formed *)

(** [getDefault] finds a default for the item: a declared value, or the
    defaults of the nested schema when each of its items has one. *)
Fixpoint resolvable (item : ConfigItem) : bool :=
  match item with
  | MultiTypeConfigItem _ _ NoDefault => false
  | MultiTypeConfigItem _ _ (Default _) => true
  | TypeOrSubconfigConfigItem _ _ _ (Own NoDefault) => false
  | TypeOrSubconfigConfigItem _ _ _ (Own (Default _)) => true
  | TypeOrSubconfigConfigItem _ _ sub UseSubDefaults => all_resolvable sub
  end
with all_resolvable (c : Config) : bool :=
  match c with
  | mkConfig items _ => forallb resolvable items
  end.

(** The key [k] belongs to an item without a default that [getDefault]
    reaches: an item of the schema, or of a nested schema whose defaults are
    used. *)
Inductive item_requires (k : string) : ConfigItem -> Prop :=
| requires_here item :
    has_no_default item = true -> key item = k -> item_requires k item
| requires_nested k' t sub :
    requires k sub -> item_requires k (TypeOrSubconfigConfigItem k' t sub UseSubDefaults)
with requires (k : string) : Config -> Prop :=
| requires_item items val item :
    item ∈ items -> item_requires k item -> requires k (mkConfig items val).

(** The keys of every schema are distinct and every declared default is
    accepted by the scalar type check of its item, in the nested schemas as
    well. *)
Fixpoint item_well_formed (item : ConfigItem) : bool :=
  match item with
  | MultiTypeConfigItem _ _ NoDefault => true
  | MultiTypeConfigItem _ possibleTypes (Default v) => existsb (isinstance v) possibleTypes
  | TypeOrSubconfigConfigItem _ _ sub (Own NoDefault) => well_formed sub
  | TypeOrSubconfigConfigItem _ t sub (Own (Default v)) => isinstance v t && well_formed sub
  | TypeOrSubconfigConfigItem _ _ sub UseSubDefaults => well_formed sub
  end
with well_formed (c : Config) : bool :=
  match c with
  | mkConfig items _ => bool_decide (NoDup (key <$> items)) && forallb item_well_formed items
  end.

(** A parsed value is returned by [_parse] as it is, and a parsed mapping
    parses to itself. *)
Definition value_reparsed (item : ConfigItem) : Prop :=
  item_well_formed item = true ->
  forall jsonConfig v, parse item jsonConfig = Ok v -> _parse item v = Ok v.

Definition mapping_reparsed (c : Config) : Prop :=
  well_formed c = true ->
  forall jsonConfig values,
    Config_parse c jsonConfig = Ok values -> Config_parse c (VDict values) = Ok values.

(** What [getDefault] comes to for an item and for a schema. *)
Definition default_outcome (item : ConfigItem) : Prop :=
  (resolvable item = true -> exists v, getDefault item = Ok v)
  /\ (resolvable item = false ->
      exists k, item_requires k item /\ getDefault item = Raise (ExpectedValueError_init k)).

Definition defaults_outcome (c : Config) : Prop :=
  (all_resolvable c = true -> exists defaults, Config_getDefault c = Ok defaults)
  /\ (all_resolvable c = false ->
      exists k, requires k c /\ Config_getDefault c = Raise (ExpectedValueError_init k)).

(** On a mapping, parsing raises one of the two exceptions of the parser. *)
Definition parser_exception (e : exn) : Prop :=
  (exists message, e = ExpectedValueError message) \/ (exists message, e = InvalidTypeError message).

Definition item_raises_own (item : ConfigItem) : Prop :=
  (forall e, getDefault item = Raise e -> parser_exception e)
  /\ (forall jsonValue e, _parse item jsonValue = Raise e -> parser_exception e).

Definition schema_raises_own (c : Config) : Prop :=
  (forall e, Config_getDefault c = Raise e -> parser_exception e)
  /\ (forall (j : gmap string value) e, Config_parse c (VDict j) = Raise e -> parser_exception e).

(** ** Further schemas and files of the examples *)

Definition database_schema : Config :=
  mkConfig [TypedConfigItem "host" str (Default (VStr "localhost"));
            TypedConfigItem "password" str NoDefault] None.

Definition service_schema : Config :=
  mkConfig [TypedConfigItem "name" str (Default (VStr "node"));
            TypeOrSubconfigConfigItem "db" str database_schema UseSubDefaults] None.

Definition good_disk : world :=
  mkWorld {[ "settings.json" := Document (JObject [("port", JInt 8080); ("debug", JBool true)]);
             "broken.json" := Malformed ]}
          {[ 3%nat := "other.log" ]} 7.

End ConfigParser.

(** * random_networks/synthesize_network_stats.py *)

Module synthesize_network_stats.

(** ** The objects that are compared and written

    A degree is an [int]; a BiBC is a [float], or [None] in the unpickled
    file and a [NoBibc()] after lines 43-45. *)
Inductive obj :=
| Int (n : Z)
| Float (x : pyfloat)
| NoBibc.

(** The class NoBibc (lines 26-32): [__le__] and [__eq__] are written out,
    [functools.total_ordering] derives [__lt__] as [a <= b and a != b] and
    [__gt__] as [not a <= b]. *)
Definition NoBibc___le__ (other : obj) : bool := true.

Definition NoBibc___eq__ (other : obj) : bool :=
  match other with
  | NoBibc => true
  | _ => false
  end.

Definition NoBibc___lt__ (other : obj) : bool :=
  NoBibc___le__ other && negb (NoBibc___eq__ other).

Definition NoBibc___gt__ (other : obj) : bool := negb (NoBibc___le__ other).

Definition Qlt_bool (x y : Q) : bool := negb (Qle_bool y x).

(** [float.__lt__]: a comparison with NaN on either side is false. *)
Definition float_lt (a b : pyfloat) : bool :=
  match a, b with
  | NaN, _ => false
  | _, NaN => false
  | _, NegInfinity => false
  | NegInfinity, _ => true
  | Infinity, _ => false
  | _, Infinity => true
  | Real x, Real y => Qlt_bool x y
  end.

(** [a < b].  A NoBibc on the left answers with its [__lt__]; a number on
    the left does not know NoBibc, so the reflected [b.__gt__(a)] answers;
    two numbers compare by value, an [int] with a [float] by the number the
    [int] denotes. *)
Definition py_lt (a b : obj) : bool :=
  match a, b with
  | NoBibc, _ => NoBibc___lt__ b
  | _, NoBibc => NoBibc___gt__ a
  | Int n, Int m => (n <? m)%Z
  | Int n, Float y => float_lt (Real (inject_Z n)) y
  | Float x, Int m => float_lt x (Real (inject_Z m))
  | Float x, Float y => float_lt x y
  end.

(** ** [sorted(..., key=..., reverse=True)]

    The sort of Python is stable and compares keys with [<] only; with
    [reverse=True] the order is descending and elements with equal keys keep
    the order they came in.  Insertion from the right gives that list
    whenever [<] orders the keys.  A NaN among the keys is below and above
    nothing, [<] is then no order, and what Python returns follows from the
    runs its merge sort finds: the properties that speak of the order of the
    sorted list are stated for keys without NaN. *)
Section sorted_reverse.
Context {A K : Type}.
Variable lt : K -> K -> bool.
Variable key : A -> K.

Fixpoint insort (x : A) (l : list A) : list A :=
  match l with
  | [] => [x]
  | y :: rest => if lt (key x) (key y) then y :: insort x rest else x :: y :: rest
  end.

Fixpoint sorted_reverse (l : list A) : list A :=
  match l with
  | [] => []
  | x :: rest => insort x (sorted_reverse rest)
  end.
End sorted_reverse.

(** ** The script (lines 34-62) *)

(** The stats of a node as unpickled, and after [None] is replaced. *)
Record raw_stats := mkRaw { raw_degree : Z; raw_bibc : option pyfloat }.
Record node_stats := mkStats { degree : Z; bibc : obj }.

Inductive stat := degree_ | bibc_.

Definition getitem (s : node_stats) (name : stat) : obj :=
  match name with
  | degree_ => Int (degree s)
  | bibc_ => bibc s
  end.

(** Lines 43-45, for one node. *)
Definition replace_None (s : raw_stats) : node_stats :=
  match raw_bibc s with
  | None => mkStats (raw_degree s) NoBibc
  | Some x => mkStats (raw_degree s) (Float x)
  end.

(** Lines 47-50: [(stat1, stat2)]. *)
Definition priority (flipPriority : bool) : stat * stat :=
  if flipPriority then (degree_, bibc_) else (bibc_, degree_).

(** Lines 43-54, for one network: [items] is [networkStats.items()], in the
    order of the dict. *)
Definition sortedStats (flipPriority : bool) (items : list (string * raw_stats))
    : list (string * node_stats) :=
  let networkStats := prod_map id replace_None <$> items in
  let '(stat1, stat2) := priority flipPriority in
  sorted_reverse py_lt (fun nodeStats => getitem nodeStats.2 stat1)
    (sorted_reverse py_lt (fun nodeStats => getitem nodeStats.2 stat2) networkStats).

Definition topNode (flipPriority : bool) (items : list (string * raw_stats))
    : result (string * node_stats) :=
  match sortedStats flipPriority items with
  | [] => Raise (BuiltinError "IndexError")
  | top :: _ => Ok top
  end.

Fixpoint synthesize (flipPriority : bool) (allStats : list (list (string * raw_stats)))
    : result (list (string * node_stats)) :=
  match allStats with
  | [] => Ok []
  | networkStats :: rest =>
      top <- topNode flipPriority networkStats ;;
      tops <- synthesize flipPriority rest ;;
      Ok (top :: tops)
  end.

(** The fields handed to [csv.writer.writerow]. *)
Inductive cell :=
| CInt (n : Z)
| CFloat (x : pyfloat)
| CStr (s : string).

Definition header : list cell := [CStr "Network Index"; CStr "Node"; CStr "Degree"; CStr "BiBC"].

Definition bibc_cell (b : obj) : cell :=
  match b with
  | NoBibc => CStr "N/A"
  | Int n => CInt n
  | Float x => CFloat x
  end.

Definition row (index : nat) (top : string * node_stats) : list cell :=
  [CInt (Z.of_nat index); CStr top.1; CInt (degree top.2); bibc_cell (bibc top.2)].

(** The rows of the CSV file, or the exception that ends the script before
    the file is opened. *)
Definition main (flipPriority : bool) (allStats : list (list (string * raw_stats)))
    : result (list (list cell)) :=
  synthesizedStats <- synthesize flipPriority allStats ;;
  Ok (header :: imap row synthesizedStats).

(** ** The vocabulary of the properties *)

Definition is_nan (o : obj) : bool :=
  match o with
  | Float NaN => true
  | _ => false
  end.

(** No BiBC of the network is NaN. *)
Definition without_nan (items : list (string * raw_stats)) : Prop :=
  Forall (fun nodeStats => raw_bibc nodeStats.2 <> Some NaN) items.

(** The place of an object other than NaN in the order: a NoBibc, minus
    infinity, the finite numbers by their value, plus infinity. *)
Definition rank (o : obj) : Z * Q :=
  match o with
  | NoBibc => (0%Z, 0%Q)
  | Float NegInfinity => (1%Z, 0%Q)
  | Int n => (2%Z, inject_Z n)
  | Float (Real x) => (2%Z, x)
  | Float Infinity => (3%Z, 0%Q)
  | Float NaN => (4%Z, 0%Q)
  end.

Definition rank_lt (a b : Z * Q) : Prop :=
  (a.1 < b.1)%Z \/ (a.1 = b.1 /\ (a.2 < b.2)%Q).

(** No element is followed by one with a greater key. *)
Fixpoint descending {A K} (lt : K -> K -> bool) (key : A -> K) (l : list A) : Prop :=
  match l with
  | [] => True
  | x :: rest => Forall (fun y => lt (key x) (key y) = false) rest /\ descending lt key rest
  end.

Definition two_networks : list (list (string * raw_stats)) :=
  [[("A", mkRaw 3 (Some (Real 0.5))); ("B", mkRaw 5 None)];
   [("C", mkRaw 4 (Some (Real 0.25))); ("D", mkRaw 1 (Some (Real 0.75)));
    ("E", mkRaw 9 (Some (Real 0.75)))]].

(** ** Further vocabulary: the order of two keys *)

(** [x] comes below [y]: its first key is smaller, or the first keys are
    equal and its second key is smaller. *)
Definition lex_lt {A K} (lt : K -> K -> bool) (key1 key2 : A -> K) (x y : A) : bool :=
  lt (key1 x) (key1 y) || (negb (lt (key1 y) (key1 x)) && lt (key2 x) (key2 y)).

(** [R] holds from every element to every later one. *)
Fixpoint pairwise {A} (R : A -> A -> Prop) (l : list A) : Prop :=
  match l with
  | [] => True
  | x :: rest => Forall (R x) rest /\ pairwise R rest
  end.

(** The first element whose key no element exceeds. *)
Fixpoint first_max {A K} (lt : K -> K -> bool) (key : A -> K) (l : list A) : option A :=
  match l with
  | [] => None
  | x :: rest =>
      match first_max lt key rest with
      | None => Some x
      | Some h => if lt (key x) (key h) then Some h else Some x
      end
  end.

(** The node [a] comes below the node [b] in the two statistics, the first
    of the priority first. *)
Definition below (flipPriority : bool) (a b : string * node_stats) : bool :=
  lex_lt py_lt (fun nodeStats => getitem nodeStats.2 (priority flipPriority).1)
               (fun nodeStats => getitem nodeStats.2 (priority flipPriority).2) a b.

(** The row of a node as it is in the unpickled file. *)
Definition raw_row (index : nat) (node : string) (s : raw_stats) : list cell :=
  [CInt (Z.of_nat index); CStr node; CInt (raw_degree s);
   match raw_bibc s with
   | None => CStr "N/A"
   | Some x => CFloat x
   end].

Definition tied_network : list (string * raw_stats) :=
  [("low", mkRaw 1 (Some (Real 0.5))); ("first", mkRaw 4 (Some (Real 0.75)));
   ("second", mkRaw 4 (Some (Real 0.75))); ("none", mkRaw 9 None)].

(** A network in which one BiBC is NaN. *)
Definition nan_network : list (string * raw_stats) :=
  [("A", mkRaw 1 (Some (Real 0.5))); ("B", mkRaw 1 (Some NaN));
   ("C", mkRaw 1 (Some (Real 0.9))); ("D", mkRaw 1 (Some (Real 0.1)))].

End synthesize_network_stats.

(** * Properties of the configuration parser *)

Import ConfigParser.

(** ** Facts about results and the item loop *)

Lemma bind_Ok {A B} (m : result A) (k : A -> result B) (b : B) :
  bind m k = Ok b <-> exists a, m = Ok a /\ k a = Ok b.
Proof.
  destruct m as [a|e]; simpl; split.
  - intros H. exists a. split; [reflexivity | exact H].
  - intros (a' & Ha & Hk). injection Ha as <-. exact Hk.
  - discriminate.
  - intros (a' & Ha & _). discriminate.
Qed.

Lemma not_raised_Ok {A} (m : result A) : ~ raised m -> exists a, m = Ok a.
Proof.
  destruct m as [a|e]; intros H.
  - exists a. reflexivity.
  - exfalso. apply H. exists e. reflexivity.
Qed.

Lemma raised_not_Ok {A} (m : result A) (a : A) : raised m -> m <> Ok a.
Proof. intros [e ->]. discriminate. Qed.

Section collect_facts.
Variable f : ConfigItem -> result value.

Lemma collect_app pre post acc :
  collect f (pre ++ post) acc = (mid <- collect f pre acc ;; collect f post mid).
Proof.
  revert acc. induction pre as [|item pre IH]; intros acc; simpl; [reflexivity|].
  destruct (f item) as [v|e]; simpl; [apply IH | reflexivity].
Qed.

(** A key no item declares keeps the entry it had. *)
Lemma collect_lookup_other items acc values k :
  collect f items acc = Ok values -> k ∉ key <$> items -> values !! k = acc !! k.
Proof.
  revert acc. induction items as [|item rest IH]; intros acc; simpl.
  - intros [= <-] _. reflexivity.
  - destruct (f item) as [v|e]; simpl; [|discriminate].
    intros Hrest Hk. apply not_elem_of_cons in Hk as [Hne Hk].
    rewrite (IH _ Hrest Hk). apply lookup_insert_ne. congruence.
Qed.

(** With distinct keys, each item finds its own result under its key. *)
Lemma collect_lookup items acc values item :
  NoDup (key <$> items) -> collect f items acc = Ok values -> item ∈ items ->
  exists v, f item = Ok v /\ values !! key item = Some v.
Proof.
  revert acc. induction items as [|first rest IH]; intros acc Hnd; simpl.
  - intros _ Hin. apply elem_of_nil in Hin as [].
  - rewrite fmap_cons in Hnd. apply NoDup_cons in Hnd as [Hfresh Hnd].
    destruct (f first) as [v|e] eqn:Hf; simpl; [|discriminate].
    intros Hrest Hin. apply elem_of_cons in Hin as [->|Hin].
    + exists v. split; [exact Hf|].
      rewrite (collect_lookup_other _ _ _ _ Hrest Hfresh). apply lookup_insert_eq.
    + exact (IH _ Hnd Hrest Hin).
Qed.

(** The keys of the result are the keys there were and the declared ones. *)
Lemma collect_dom items acc values :
  collect f items acc = Ok values ->
  dom values = dom acc ∪ list_to_set (key <$> items).
Proof.
  revert acc. induction items as [|item rest IH]; intros acc; simpl.
  - intros [= <-]. rewrite (right_id_L ∅ (∪)). reflexivity.
  - destruct (f item) as [v|e]; simpl; [|discriminate].
    intros Hrest. rewrite (IH _ Hrest), dom_insert_L.
    rewrite (comm_L (∪) {[key item]} (dom acc)), <- (assoc_L (∪)). reflexivity.
Qed.

(** The loop returns exactly when every item does. *)
Lemma collect_Ok_all items acc values :
  collect f items acc = Ok values -> Forall (fun item => exists v, f item = Ok v) items.
Proof.
  revert acc. induction items as [|item rest IH]; intros acc; simpl.
  - intros _. constructor.
  - destruct (f item) as [v|e] eqn:Hf; simpl; [|discriminate].
    intros Hrest. constructor; [exists v; exact Hf | exact (IH _ Hrest)].
Qed.

Lemma collect_all_Ok items acc :
  Forall (fun item => exists v, f item = Ok v) items -> exists values, collect f items acc = Ok values.
Proof.
  revert acc. induction items as [|item rest IH]; intros acc Hall; simpl.
  - exists acc. reflexivity.
  - apply Forall_cons in Hall as [[v Hv] Hall]. rewrite Hv. simpl. apply IH, Hall.
Qed.

(** The exception of the loop is the one of the first item that raises. *)
Lemma collect_first_raise pre item post acc e :
  Forall (fun i => exists v, f i = Ok v) pre -> f item = Raise e ->
  collect f (pre ++ item :: post) acc = Raise e.
Proof.
  intros Hpre Hitem. rewrite collect_app.
  destruct (collect_all_Ok pre acc Hpre) as [mid ->]. simpl.
  rewrite Hitem. reflexivity.
Qed.

Lemma collect_raised items acc item :
  item ∈ items -> raised (f item) -> raised (collect f items acc).
Proof.
  intros Hin Hraise.
  destruct (collect f items acc) as [values|e] eqn:Hc; [|exists e; reflexivity].
  apply collect_Ok_all in Hc. rewrite Forall_forall in Hc.
  destruct (Hc _ Hin) as [v Hv]. destruct Hraise as [e He]. congruence.
Qed.
End collect_facts.

Lemma collect_ext (f g : ConfigItem -> result value) items acc :
  (forall item, item ∈ items -> f item = g item) -> collect f items acc = collect g items acc.
Proof.
  revert acc. induction items as [|item rest IH]; intros acc Heq; simpl; [reflexivity|].
  rewrite (Heq item) by apply list_elem_of_here.
  destruct (g item) as [v|e]; simpl; [|reflexivity].
  apply IH. intros i Hi. apply Heq, list_elem_of_further, Hi.
Qed.

Lemma Config_parse_items items val jsonConfig :
  Config_parse (mkConfig items val) jsonConfig = collect (fun item => parse item jsonConfig) items ∅.
Proof. reflexivity. Qed.

Lemma Config_getDefault_items items val :
  Config_getDefault (mkConfig items val) = collect getDefault items ∅.
Proof. reflexivity. Qed.

(** [parse] of an item on a dict: the entry decides. *)
Lemma parse_present item (j : gmap string value) raw :
  j !! key item = Some raw -> parse item (VDict j) = _parse item raw.
Proof.
  intros H. unfold parse, ConfigItem_parse. simpl.
  rewrite H, bool_decide_eq_true_2 by (exists raw; reflexivity). reflexivity.
Qed.

Lemma parse_absent item (j : gmap string value) :
  j !! key item = None -> parse item (VDict j) = getDefault item.
Proof.
  intros H. unfold parse, ConfigItem_parse. simpl.
  rewrite H, bool_decide_eq_false_2; [reflexivity|].
  intros [v Hv]. discriminate.
Qed.

(** ** What [Config.parse] returns and when it raises *)

Lemma getDefault_no_default item :
  has_no_default item = true -> getDefault item = Raise (ExpectedValueError_init (key item)).
Proof.
  destruct item as [k ts [|v] | k t sub [|[|v]]]; simpl; intros H;
    try discriminate; reflexivity.
Qed.

(** C1, as stated, fails: "b" has no default and is absent from the input
    [{"a": "x"}], yet the exception raised is the InvalidTypeError of the
    item "a" declared before it, not an ExpectedValueError. *)
Lemma missing_key_after_type_error :
  TypedConfigItem "b" int NoDefault ∈ configItems two_required
  /\ has_no_default (TypedConfigItem "b" int NoDefault) = true
  /\ ({[ "a" := VStr "x" ]} : gmap string value) !! "b" = None
  /\ Config_parse two_required (VDict {[ "a" := VStr "x" ]})
     = Raise (InvalidTypeError_init "a" "[<class 'int'>]" "<class 'str'>" true)
  /\ ~ (exists message,
          Config_parse two_required (VDict {[ "a" := VStr "x" ]})
          = Raise (ExpectedValueError message)).
Proof.
  split; [apply list_elem_of_further, list_elem_of_here|].
  split; [reflexivity|]. split; [reflexivity|].
  split; [reflexivity|]. intros [message H]. vm_compute in H. discriminate.
Qed.

(** C1, amended.  For a Config with distinct keys and an input mapping [j]:
    the [parse] of an item is the result of its [_parse] on [j[key]] when the
    key is present and its default when the key is absent.  When the [parse]
    of no declared item raises, [Config.parse] returns a mapping, and the
    mapping it returns has an entry for every declared item, which is that
    result of the item.  Otherwise [Config.parse] raises the exception of the
    first declared item whose [parse] raises.  When an item without a default
    has its key absent, its [parse] raises the ExpectedValueError of its key
    and [Config.parse] raises instead of returning a mapping without the key;
    the exception of [Config.parse] is that ExpectedValueError when no item
    declared earlier raises. *)
Theorem parse_entries_or_error (items : list ConfigItem) val (j : gmap string value) :
  NoDup (key <$> items) ->
  (forall item,
     parse item (VDict j)
     = match j !! key item with
       | Some raw => _parse item raw
       | None => getDefault item
       end)
  /\ ((forall item, item ∈ items -> ~ raised (parse item (VDict j))) ->
      exists values, Config_parse (mkConfig items val) (VDict j) = Ok values)
  /\ (forall values, Config_parse (mkConfig items val) (VDict j) = Ok values ->
        forall item, item ∈ items ->
          exists v, values !! key item = Some v
            /\ match j !! key item with
               | Some raw => _parse item raw = Ok v
               | None => getDefault item = Ok v
               end)
  /\ (forall pre item post e, items = (pre ++ item :: post) ->
        Forall (fun earlier => ~ raised (parse earlier (VDict j))) pre ->
        parse item (VDict j) = Raise e ->
        Config_parse (mkConfig items val) (VDict j) = Raise e)
  /\ (forall pre item post, items = (pre ++ item :: post) ->
        has_no_default item = true -> j !! key item = None ->
        parse item (VDict j) = Raise (ExpectedValueError_init (key item))
        /\ raised (Config_parse (mkConfig items val) (VDict j))
        /\ (Forall (fun earlier => ~ raised (parse earlier (VDict j))) pre ->
            Config_parse (mkConfig items val) (VDict j)
            = Raise (ExpectedValueError_init (key item)))).
Proof.
  intros Hnd. split; [|split; [|split; [|split]]].
  - intros item. destruct (j !! key item) as [raw|] eqn:Hj.
    + exact (parse_present _ _ _ Hj).
    + exact (parse_absent _ _ Hj).
  - intros Hall. rewrite Config_parse_items. apply collect_all_Ok.
    apply Forall_forall. intros item Hin. apply not_raised_Ok, Hall, Hin.
  - intros values Hparse item Hin. rewrite Config_parse_items in Hparse.
    destruct (collect_lookup _ _ _ _ _ Hnd Hparse Hin) as (v & Hv & Hlook).
    exists v. split; [exact Hlook|].
    destruct (j !! key item) as [raw|] eqn:Hj.
    + rewrite <- (parse_present _ _ _ Hj). exact Hv.
    + rewrite <- (parse_absent _ _ Hj). exact Hv.
  - intros pre item post e -> Hpre Hitem. rewrite Config_parse_items.
    apply collect_first_raise; [|exact Hitem].
    eapply Forall_impl; [exact Hpre|]. intros i Hi. apply not_raised_Ok, Hi.
  - intros pre item post -> Hno Habsent.
    assert (Hitem : parse item (VDict j) = Raise (ExpectedValueError_init (key item))).
    { rewrite (parse_absent _ _ Habsent). apply getDefault_no_default, Hno. }
    split; [exact Hitem|]. rewrite Config_parse_items. split.
    + apply collect_raised with (item := item).
      * apply elem_of_app. right. apply list_elem_of_here.
      * eexists. exact Hitem.
    + intros Hpre. apply collect_first_raise; [|exact Hitem].
      eapply Forall_impl; [exact Hpre|]. intros i Hi. apply not_raised_Ok, Hi.
Qed.

Lemma parse_entries_or_error_witness :
  NoDup (key <$> configItems two_required)
  /\ (exists values,
        Config_parse two_required (VDict {[ "a" := VInt 1; "b" := VInt 7 ]}) = Ok values)
  /\ (exists v, ({[ "b" := VInt 7; "a" := VInt 1 ]} : gmap string value) !! "b" = Some v
        /\ _parse (TypedConfigItem "b" int NoDefault) (VInt 7) = Ok v)
  /\ Config_parse two_required (VDict {[ "a" := VStr "x" ]})
     = Raise (InvalidTypeError_init "a" "[<class 'int'>]" "<class 'str'>" true)
  /\ Config_parse two_required (VDict {[ "a" := VInt 1 ]})
     = Raise (ExpectedValueError_init "b").
Proof.
  assert (Hnd : NoDup (key <$> configItems two_required)).
  { apply (bool_decide_unpack _). vm_compute. exact I. }
  split; [exact Hnd|]. split; [|split; [|split]].
  - destruct (parse_entries_or_error (configItems two_required) None
                {[ "a" := VInt 1; "b" := VInt 7 ]} Hnd) as (_ & Hreturns & _).
    apply Hreturns. intros item Hin [e He].
    apply elem_of_cons in Hin as [->|Hin]; [vm_compute in He; discriminate|].
    apply elem_of_cons in Hin as [->|Hin]; [vm_compute in He; discriminate|].
    apply elem_of_nil in Hin as [].
  - destruct (parse_entries_or_error (configItems two_required) None
                {[ "a" := VInt 1; "b" := VInt 7 ]} Hnd) as (_ & _ & Hentries & _).
    exact (Hentries {[ "b" := VInt 7; "a" := VInt 1 ]} eq_refl
             (TypedConfigItem "b" int NoDefault)
             (list_elem_of_further _ _ _ (list_elem_of_here _ _))).
  - assert (Hitem : parse (TypedConfigItem "a" int NoDefault) (VDict {[ "a" := VStr "x" ]})
                    = Raise (InvalidTypeError_init "a" "[<class 'int'>]" "<class 'str'>" true))
      by reflexivity.
    destruct (parse_entries_or_error (configItems two_required) None
                {[ "a" := VStr "x" ]} Hnd) as (_ & _ & _ & Hfirst & _).
    exact (Hfirst [] (TypedConfigItem "a" int NoDefault) [TypedConfigItem "b" int NoDefault] _
             eq_refl (List.Forall_nil _) Hitem).
  - assert (Habsent : ({[ "a" := VInt 1 ]} : gmap string value)
                        !! key (TypedConfigItem "b" int NoDefault) = None) by reflexivity.
    destruct (parse_entries_or_error (configItems two_required) None
                {[ "a" := VInt 1 ]} Hnd) as (_ & _ & _ & _ & Hmissing).
    destruct (Hmissing [TypedConfigItem "a" int NoDefault] (TypedConfigItem "b" int NoDefault) []
                eq_refl eq_refl Habsent) as (_ & _ & Hfirst).
    apply Hfirst. constructor; [|constructor].
    intros [e He]. vm_compute in He. discriminate.
Defined.

(** An input key that no item declares does not reach any item. *)
Lemma parse_insert_other item (j : gmap string value) k v :
  k <> key item -> parse item (VDict (<[k := v]> j)) = parse item (VDict j).
Proof.
  intros Hne. unfold parse, ConfigItem_parse. simpl.
  rewrite (lookup_insert_ne j k (key item) v Hne).
  reflexivity.
Qed.

(** C9.  The keys of the mapping [Config.parse] returns are the declared
    keys, and an input key that no item declares changes nothing: the same
    mapping is returned, or the same exception raised, as without it. *)
Theorem parse_keys_are_declared_keys c (j : gmap string value) :
  (forall values, Config_parse c (VDict j) = Ok values ->
     dom values = list_to_set (key <$> configItems c))
  /\ (forall k v, k ∉ key <$> configItems c ->
        Config_parse c (VDict (<[k := v]> j)) = Config_parse c (VDict j)).
Proof.
  destruct c as [items val]. cbn [configItems]. split.
  - intros values Hparse. rewrite Config_parse_items in Hparse.
    rewrite (collect_dom _ _ _ _ Hparse), dom_empty_L, (left_id_L ∅ (∪)). reflexivity.
  - intros k v Hk. rewrite !Config_parse_items. apply collect_ext.
    intros item Hin. apply parse_insert_other. intros ->.
    apply Hk, list_elem_of_fmap_2, Hin.
Qed.

Lemma parse_keys_are_declared_keys_witness :
  dom ({[ "port" := VInt 8080 ]} : gmap string value) = list_to_set (key <$> configItems port_schema)
  /\ Config_parse port_schema (VDict (<["debug" := VBool true]> {[ "port" := VInt 8080 ]}))
     = Config_parse port_schema (VDict {[ "port" := VInt 8080 ]}).
Proof.
  split.
  - exact (proj1 (parse_keys_are_declared_keys port_schema {[ "port" := VInt 8080 ]})
                 {[ "port" := VInt 8080 ]} eq_refl).
  - apply (proj2 (parse_keys_are_declared_keys port_schema {[ "port" := VInt 8080 ]})).
    apply (bool_decide_unpack _). vm_compute. exact I.
Defined.

(** ** The type checks *)

Lemma existsb_isinstance v ts :
  existsb (isinstance v) ts = true <-> exists t, t ∈ ts /\ isinstance v t = true.
Proof.
  induction ts as [|t ts IH]; simpl.
  - split; [discriminate|]. intros (t & Ht & _). apply elem_of_nil in Ht as [].
  - rewrite orb_true_iff, IH. split.
    + intros [H|(t' & Hin & H)].
      * exists t. split; [apply list_elem_of_here | exact H].
      * exists t'. split; [apply list_elem_of_further, Hin | exact H].
    + intros (t' & Hin & H). apply elem_of_cons in Hin as [->|Hin].
      * left. exact H.
      * right. exists t'. split; assumption.
Qed.

(** C6.  [_parse] of a MultiTypeConfigItem returns the value as it is
    exactly when the value is an instance of one of the accepted types;
    otherwise it raises the InvalidTypeError whose message holds the key, the
    list of accepted types and the type of the value. *)
Theorem MultiType_parse_checks_type k ts d v :
  ((exists t, t ∈ ts /\ isinstance v t = true) <-> _parse (MultiTypeConfigItem k ts d) v = Ok v)
  /\ (~ (exists t, t ∈ ts /\ isinstance v t = true) ->
      _parse (MultiTypeConfigItem k ts d) v
      = Raise (InvalidTypeError
                 ("Invalid type for " +:+ dquote +:+ k +:+ dquote +:+ ". Expected one of " +:+ dquote
                  +:+ repr_types ts +:+ dquote +:+ ", but got " +:+ dquote
                  +:+ repr_type (type v) +:+ dquote +:+ "."))).
Proof.
  rewrite <- existsb_isinstance. simpl.
  destruct (existsb (isinstance v) ts); split.
  - split; reflexivity.
  - intros H. exfalso. apply H. reflexivity.
  - split; discriminate.
  - intros _. reflexivity.
Qed.

Lemma MultiType_parse_checks_type_witness :
  _parse (MultiTypeConfigItem "n" [str; int] NoDefault) (VList [])
  = Raise (InvalidTypeError
             ("Invalid type for " +:+ dquote +:+ "n" +:+ dquote +:+ ". Expected one of " +:+ dquote
              +:+ "[<class 'str'>, <class 'int'>]" +:+ dquote +:+ ", but got " +:+ dquote
              +:+ "<class 'list'>" +:+ dquote +:+ ".")).
Proof.
  apply (proj2 (MultiType_parse_checks_type "n" [str; int] NoDefault (VList []))).
  intros (t & Hin & Ht).
  apply elem_of_cons in Hin as [->|Hin]; [discriminate|].
  apply elem_of_cons in Hin as [->|Hin]; [discriminate|].
  apply elem_of_nil in Hin as [].
Defined.

Lemma isinstance_None t : isinstance VNone t = true <-> t = NoneType.
Proof. destruct t; simpl; split; intros H; try discriminate; reflexivity. Qed.

Lemma parse_None_accepted item :
  NoneType ∈ accepted_types item -> _parse item VNone = Ok VNone.
Proof.
  destruct item as [k ts d | k t sub d]; simpl; intros Hin.
  - assert (H : existsb (isinstance VNone) ts = true).
    { apply existsb_isinstance. exists NoneType. split; [exact Hin | reflexivity]. }
    rewrite H. reflexivity.
  - apply list_elem_of_singleton in Hin as <-. reflexivity.
Qed.

Lemma parse_None_rejected item :
  NoneType ∉ accepted_types item -> exists message, _parse item VNone = Raise (InvalidTypeError message).
Proof.
  destruct item as [k ts d | k t sub d]; simpl; intros Hout.
  - destruct (existsb (isinstance VNone) ts) eqn:H.
    + exfalso. apply existsb_isinstance in H as (t & Hin & Ht).
      apply isinstance_None in Ht as ->. exact (Hout Hin).
    + eexists. reflexivity.
  - destruct (isinstance VNone t) eqn:H.
    + exfalso. apply isinstance_None in H as ->. apply Hout, list_elem_of_here.
    + simpl. eexists. reflexivity.
Qed.

(** C10.  A declared key present in the input with the value [None] is
    type-checked like any value: [parse] returns [None] when NoneType is
    among the accepted types of the item and raises InvalidTypeError
    otherwise, whatever default the item declares. *)
Theorem None_is_present_not_missing item (j : gmap string value) :
  j !! key item = Some VNone ->
  (NoneType ∈ accepted_types item -> parse item (VDict j) = Ok VNone)
  /\ (NoneType ∉ accepted_types item ->
      exists message, parse item (VDict j) = Raise (InvalidTypeError message)).
Proof.
  intros Hj. rewrite (parse_present _ _ _ Hj). split.
  - apply parse_None_accepted.
  - apply parse_None_rejected.
Qed.

Lemma None_is_present_not_missing_witness :
  ({[ "port" := VNone ]} : gmap string value) !! key (TypedConfigItem "port" int (Default (VInt 80)))
  = Some VNone
  /\ exists message,
       parse (TypedConfigItem "port" int (Default (VInt 80))) (VDict {[ "port" := VNone ]})
       = Raise (InvalidTypeError message).
Proof.
  assert (Hj : ({[ "port" := VNone ]} : gmap string value)
                 !! key (TypedConfigItem "port" int (Default (VInt 80))) = Some VNone)
    by reflexivity.
  split; [exact Hj|].
  apply (proj2 (None_is_present_not_missing
                  (TypedConfigItem "port" int (Default (VInt 80))) {[ "port" := VNone ]} Hj)).
  intros Hin. apply list_elem_of_singleton in Hin. discriminate.
Defined.

(** Parsing the empty object is producing the defaults, exceptions
    included. *)
Lemma Config_parse_empty c : Config_parse c (VDict ∅) = Config_getDefault c.
Proof.
  destruct c as [items val]. rewrite Config_parse_items, Config_getDefault_items.
  apply collect_ext. intros item _. apply parse_absent, lookup_empty.
Qed.

(** C2.  [_parse] of a TypeOrSubconfigConfigItem with scalar type [t] and
    nested Config [sub]: a value that is an instance of [t] is returned as it
    is; a value that is not, but is a dict, gives the result of [sub.parse]
    on it; any other value raises the InvalidTypeError of the key, [t] and
    the type of the value.  With [t = str]: "x" gives "x", the empty object
    gives the defaults of [sub] when [sub.getDefault()] returns, and 42
    raises InvalidTypeError. *)
Theorem TypeOrSubconfig_parse_cases k t sub d v :
  (isinstance v t = true -> _parse (TypeOrSubconfigConfigItem k t sub d) v = Ok v)
  /\ (isinstance v t = false -> forall obj, v = VDict obj ->
      _parse (TypeOrSubconfigConfigItem k t sub d) v
      = (values <- Config_parse sub (VDict obj) ;; Ok (VDict values)))
  /\ (isinstance v t = false -> isinstance v dict = false ->
      _parse (TypeOrSubconfigConfigItem k t sub d) v
      = Raise (InvalidTypeError_init k (repr_type t) (repr_type (type v)) false))
  /\ _parse (TypeOrSubconfigConfigItem k str sub d) (VStr "x") = Ok (VStr "x")
  /\ (forall defaults, Config_getDefault sub = Ok defaults ->
      _parse (TypeOrSubconfigConfigItem k str sub d) (VDict ∅) = Ok (VDict defaults))
  /\ _parse (TypeOrSubconfigConfigItem k str sub d) (VInt 42)
     = Raise (InvalidTypeError_init k "<class 'str'>" "<class 'int'>" false).
Proof.
  split; [|split; [|split; [|split; [reflexivity|split; [|reflexivity]]]]].
  - intros Hscalar. cbn [_parse]. rewrite Hscalar. reflexivity.
  - intros Hscalar obj ->. cbn [_parse]. rewrite Hscalar. reflexivity.
  - intros Hscalar Hdict. cbn [_parse]. rewrite Hscalar, Hdict. reflexivity.
  - intros defaults Hdef. cbn [_parse]. unfold isinstance. cbn [type issubclass pytype_eqb].
    rewrite Config_parse_empty, Hdef. reflexivity.
Qed.

Lemma TypeOrSubconfig_parse_cases_witness :
  _parse (TypeOrSubconfigConfigItem "db" str host_schema UseSubDefaults) (VBool true)
  = Raise (InvalidTypeError_init "db" "<class 'str'>" "<class 'bool'>" false)
  /\ _parse (TypeOrSubconfigConfigItem "db" str host_schema UseSubDefaults) (VDict ∅)
     = Ok (VDict {[ "host" := VStr "localhost" ]})
  /\ _parse (TypeOrSubconfigConfigItem "db" int host_schema UseSubDefaults) (VBool true)
     = Ok (VBool true).
Proof.
  pose proof (TypeOrSubconfig_parse_cases "db" str host_schema UseSubDefaults (VBool true))
    as (_ & _ & Hother & _ & Hdefaults & _).
  pose proof (TypeOrSubconfig_parse_cases "db" int host_schema UseSubDefaults (VBool true))
    as (Hscalar & _).
  split; [exact (Hother eq_refl eq_refl)|].
  split; [exact (Hdefaults _ eq_refl) | exact (Hscalar eq_refl)].
Defined.

(** C7.  [parseConfig] is [validate] after [parse].  Without a validator
    [validate] returns the mapping as it is and [parseConfig] is [parse];
    with a validator [parseConfig] returns what the validator returns; an
    exception of [parse] or of the validator is the exception of
    [parseConfig]. *)
Theorem parseConfig_is_validate_after_parse c raw :
  parseConfig c raw = (config <- Config_parse c raw ;; Config_validate c config)
  /\ (validator c = None ->
      (forall config, Config_validate c config = Ok config)
      /\ parseConfig c raw = Config_parse c raw)
  /\ (forall f, validator c = Some f ->
      (forall config, Config_validate c config = f config)
      /\ parseConfig c raw = (config <- Config_parse c raw ;; f config))
  /\ (forall e, Config_parse c raw = Raise e -> parseConfig c raw = Raise e)
  /\ (forall f config e, validator c = Some f -> Config_parse c raw = Ok config ->
      f config = Raise e -> parseConfig c raw = Raise e).
Proof.
  assert (Hseq : parseConfig c raw = (config <- Config_parse c raw ;; Config_validate c config)).
  { unfold parseConfig. destruct (Config_parse c raw) as [config|e]; simpl; [|reflexivity].
    destruct (Config_validate c config); reflexivity. }
  split; [exact Hseq|]. rewrite Hseq. unfold Config_validate.
  split; [|split; [|split]].
  - intros Hnone. rewrite Hnone. split; [reflexivity|].
    destruct (Config_parse c raw); reflexivity.
  - intros f Hsome. rewrite Hsome. split; reflexivity.
  - intros e ->. reflexivity.
  - intros f config e Hsome -> He. simpl. rewrite Hsome. exact He.
Qed.

Lemma parseConfig_is_validate_after_parse_witness :
  parseConfig port_schema (VDict ∅) = Config_parse port_schema (VDict ∅)
  /\ parseConfig validated_port_schema (VDict ∅)
     = (config <- Config_parse validated_port_schema (VDict ∅) ;; port_validator config)
  /\ parseConfig validated_port_schema (VDict {[ "port" := VInt 0 ]})
     = Raise (ValidationFailedError "port 0 is reserved")
  /\ parseConfig validated_port_schema (VInt 3) = Raise not_iterable.
Proof.
  pose proof (parseConfig_is_validate_after_parse port_schema (VDict ∅)) as (_ & Hnone & _).
  pose proof (parseConfig_is_validate_after_parse validated_port_schema (VDict ∅))
    as (_ & _ & Hsome & _).
  pose proof (parseConfig_is_validate_after_parse validated_port_schema
                (VDict {[ "port" := VInt 0 ]})) as (_ & _ & _ & _ & Hval).
  pose proof (parseConfig_is_validate_after_parse validated_port_schema (VInt 3))
    as (_ & _ & _ & Hparse & _).
  split; [exact (proj2 (Hnone eq_refl))|].
  split; [exact (proj2 (Hsome _ eq_refl))|].
  split; [exact (Hval port_validator {[ "port" := VInt 0 ]} _ eq_refl eq_refl eq_refl)|].
  exact (Hparse _ eq_refl).
Defined.

(** ** Parsing the defaults again *)

(** C5, as stated, fails: [getDefault] does not check a default against the
    accepted types.  The schema with the one item
    [TypedConfigItem("count", int, default=None)] has the defaults
    [{"count": None}], and parsing them raises InvalidTypeError. *)
Lemma default_None_is_not_reparsed :
  Config_getDefault optional_count = Ok {[ "count" := VNone ]}
  /\ Config_parse optional_count (VDict {[ "count" := VNone ]})
     = Raise (InvalidTypeError_init "count" "[<class 'int'>]" "<class 'NoneType'>" true)
  /\ Config_parse optional_count (VDict {[ "count" := VNone ]}) <> Ok {[ "count" := VNone ]}.
Proof.
  split; [reflexivity|]. split; [reflexivity|]. discriminate.
Qed.

Lemma reparse_multi k ts d : default_reparsed (MultiTypeConfigItem k ts d).
Proof.
  destruct d as [|d]; intros Hacc v; simpl; [discriminate|].
  intros [= <-]. simpl in Hacc. rewrite Hacc. reflexivity.
Qed.

Lemma reparse_sub k t sub d :
  defaults_reparsed sub -> default_reparsed (TypeOrSubconfigConfigItem k t sub d).
Proof.
  intros IH Hacc v Hdef. destruct d as [|[|d]]; cbn [default_accepted getDefault] in *.
  - apply bind_Ok in Hdef as (defaults & Hdef & [= <-]).
    cbn [_parse]. unfold isinstance. cbn [type].
    destruct (issubclass dict t) eqn:Ht; [reflexivity|].
    cbn [issubclass pytype_eqb]. rewrite (IH Hacc _ Hdef). reflexivity.
  - discriminate.
  - injection Hdef as <-. cbn [_parse]. rewrite Hacc. reflexivity.
Qed.

Lemma reparse_schema items val : Forall default_reparsed items -> defaults_reparsed (mkConfig items val).
Proof.
  intros IH Hacc defaults Hdef.
  cbn [defaults_accepted] in Hacc. apply andb_true_iff in Hacc as [Hnd Hacc].
  apply bool_decide_eq_true in Hnd.
  rewrite Config_getDefault_items in Hdef. rewrite Config_parse_items, <- Hdef.
  apply collect_ext. intros item Hin.
  destruct (collect_lookup _ _ _ _ _ Hnd Hdef Hin) as (v & Hv & Hlook).
  rewrite (parse_present _ _ _ Hlook), Hv.
  rewrite Forall_forall in IH. apply (IH _ Hin); [|exact Hv].
  rewrite forallb_forall in Hacc. apply Hacc, list_elem_of_In, Hin.
Qed.

(** An accepted default is returned by [_parse] as it is. *)
Lemma reparse_default item v :
  default_accepted item = true -> getDefault item = Ok v -> _parse item v = Ok v.
Proof.
  intros Hacc. revert v.
  exact (ConfigItem_induction default_reparsed defaults_reparsed reparse_multi reparse_sub reparse_schema
           item Hacc).
Qed.

Lemma reparse_defaults c defaults :
  defaults_accepted c = true -> Config_getDefault c = Ok defaults ->
  Config_parse c (VDict defaults) = Ok defaults.
Proof.
  intros Hacc. revert defaults.
  exact (Config_induction default_reparsed defaults_reparsed reparse_multi reparse_sub reparse_schema c Hacc).
Qed.
(** C5, amended.  For a Config whose keys are distinct and whose declared
    defaults are accepted by the type check of their item (in the nested
    Configs whose defaults are used as well), if [getDefault()] returns a
    mapping then parsing that mapping through the same Config returns an
    equal mapping. *)
Theorem parse_defaults_is_defaults c defaults :
  defaults_accepted c = true ->
  Config_getDefault c = Ok defaults ->
  Config_parse c (VDict defaults) = Ok defaults.
Proof. apply reparse_defaults. Qed.

Lemma parse_defaults_is_defaults_witness :
  defaults_accepted server_schema = true
  /\ Config_getDefault server_schema
     = Ok {[ "name" := VStr "node"; "db" := VDict {[ "host" := VStr "localhost" ]};
             "limit" := VNone ]}
  /\ Config_parse server_schema
       (VDict {[ "name" := VStr "node"; "db" := VDict {[ "host" := VStr "localhost" ]};
                 "limit" := VNone ]})
     = Ok {[ "name" := VStr "node"; "db" := VDict {[ "host" := VStr "localhost" ]};
             "limit" := VNone ]}.
Proof.
  assert (Hacc : defaults_accepted server_schema = true) by (vm_compute; reflexivity).
  assert (Hdef : Config_getDefault server_schema
                 = Ok {[ "name" := VStr "node"; "db" := VDict {[ "host" := VStr "localhost" ]};
                         "limit" := VNone ]}) by (vm_compute; reflexivity).
  split; [exact Hacc|]. split; [exact Hdef|].
  exact (parse_defaults_is_defaults server_schema _ Hacc Hdef).
Defined.

(** ** Duplicate keys *)

Lemma repeated_not_NoDup k keys : repeated k keys -> ~ NoDup keys.
Proof.
  intros (i & j & Hlt & Hi & Hj) Hnd.
  rewrite NoDup_alt in Hnd. specialize (Hnd i j k Hi Hj). lia.
Qed.

Lemma repeated_head k keys : k ∈ keys -> repeated k (k :: keys).
Proof.
  intros Hin. apply list_elem_of_lookup in Hin as [j Hj].
  exists 0, (S j). split; [lia|]. split; [reflexivity | exact Hj].
Qed.

Lemma repeated_tail k k' keys : repeated k keys -> repeated k (k' :: keys).
Proof.
  intros (i & j & Hlt & Hi & Hj). exists (S i), (S j).
  split; [lia|]. split; assumption.
Qed.

Lemma errorOnDuplicateKeys_from_Ok d orderedPairs d' :
  errorOnDuplicateKeys_from d orderedPairs = Ok d' ->
  NoDup orderedPairs.*1 /\ forall k, k ∈ orderedPairs.*1 -> d !! k = None.
Proof.
  revert d. induction orderedPairs as [|[k v] rest IH]; intros d; simpl.
  - intros _. split; [constructor|]. intros k Hk. apply elem_of_nil in Hk as [].
  - destruct (bool_decide (is_Some (d !! k))) eqn:Hseen; [discriminate|].
    apply bool_decide_eq_false in Hseen. intros Hrest.
    destruct (IH _ Hrest) as [Hnd Hfresh]. split.
    + apply NoDup_cons. split; [|exact Hnd].
      intros Hin. specialize (Hfresh k Hin). rewrite lookup_insert_eq in Hfresh. discriminate.
    + intros k' Hk'. apply elem_of_cons in Hk' as [->|Hk'].
      * apply eq_None_not_Some, Hseen.
      * specialize (Hfresh k' Hk'). destruct (decide (k = k')) as [->|Hne].
        -- rewrite lookup_insert_eq in Hfresh. discriminate.
        -- rewrite lookup_insert_ne in Hfresh by exact Hne. exact Hfresh.
Qed.

Lemma errorOnDuplicateKeys_from_Raise d orderedPairs e :
  errorOnDuplicateKeys_from d orderedPairs = Raise e ->
  exists k, e = ValidationFailedError (duplicate_key_message k)
    /\ ((is_Some (d !! k) /\ k ∈ orderedPairs.*1) \/ repeated k orderedPairs.*1).
Proof.
  revert d. induction orderedPairs as [|[k v] rest IH]; intros d; simpl; [discriminate|].
  destruct (bool_decide (is_Some (d !! k))) eqn:Hseen.
  - apply bool_decide_eq_true in Hseen. intros [= <-]. exists k.
    split; [reflexivity|]. left. split; [exact Hseen | apply list_elem_of_here].
  - intros Hrest. destruct (IH _ Hrest) as (k' & -> & [[Hsome Hin]|Hrep]);
      exists k'; (split; [reflexivity|]).
    + destruct (decide (k = k')) as [->|Hne].
      * right. apply repeated_head, Hin.
      * left. rewrite lookup_insert_ne in Hsome by exact Hne.
        split; [exact Hsome | apply list_elem_of_further, Hin].
    + right. apply repeated_tail, Hrep.
Qed.

Lemma errorOnDuplicateKeys_Ok orderedPairs d :
  errorOnDuplicateKeys orderedPairs = Ok d -> NoDup orderedPairs.*1.
Proof. intros H. apply (errorOnDuplicateKeys_from_Ok _ _ _ H). Qed.

Lemma errorOnDuplicateKeys_Raise orderedPairs e :
  errorOnDuplicateKeys orderedPairs = Raise e ->
  exists k, e = ValidationFailedError (duplicate_key_message k) /\ repeated k orderedPairs.*1.
Proof.
  intros H. destruct (errorOnDuplicateKeys_from_Raise _ _ _ H) as (k & -> & [[Hsome _]|Hrep]).
  - rewrite lookup_empty in Hsome. destruct Hsome as [v Hv]. discriminate.
  - exists k. split; [reflexivity | exact Hrep].
Qed.

(** When the hook returns, the dict holds every pair it was given. *)
Lemma errorOnDuplicateKeys_from_lookup d orderedPairs d' k :
  errorOnDuplicateKeys_from d orderedPairs = Ok d' ->
  d' !! k = match (list_to_map orderedPairs : gmap string value) !! k with
            | Some v => Some v
            | None => d !! k
            end.
Proof.
  revert d. induction orderedPairs as [|[k0 v0] rest IH]; intros d; simpl.
  - intros [= <-]. rewrite lookup_empty. reflexivity.
  - destruct (bool_decide (is_Some (d !! k0))) eqn:Hseen; [discriminate|].
    intros Hrest. rewrite (IH _ Hrest).
    destruct (errorOnDuplicateKeys_from_Ok _ _ _ Hrest) as [_ Hfresh].
    destruct (decide (k0 = k)) as [<-|Hne].
    + rewrite !lookup_insert_eq.
      destruct (list_to_map rest !! k0) as [v|] eqn:Hlook; [|reflexivity].
      apply elem_of_list_to_map_2 in Hlook.
      assert (Hin : k0 ∈ rest.*1) by (apply list_elem_of_fmap; exists (k0, v); split; auto).
      specialize (Hfresh k0 Hin). rewrite lookup_insert_eq in Hfresh. discriminate.
    + rewrite !lookup_insert_ne by exact Hne. reflexivity.
Qed.

Lemma errorOnDuplicateKeys_returns orderedPairs d :
  errorOnDuplicateKeys orderedPairs = Ok d -> d = list_to_map orderedPairs.
Proof.
  intros H. apply map_eq. intros k.
  rewrite (errorOnDuplicateKeys_from_lookup _ _ _ k H), lookup_empty.
  destruct (list_to_map orderedPairs !! k); reflexivity.
Qed.

Section each_facts.
Variable f : json -> result value.

Lemma each_element_Ok l vs :
  each_element f l = Ok vs -> Forall (fun x => exists v, f x = Ok v) l.
Proof.
  revert vs. induction l as [|x rest IH]; intros vs; simpl; [constructor|].
  destruct (f x) as [v|e] eqn:Hx; simpl; [|discriminate].
  destruct (each_element f rest) as [vs'|e]; simpl; [|discriminate].
  intros _. constructor; [exists v; exact Hx | exact (IH _ eq_refl)].
Qed.

Lemma each_element_Raise l e :
  each_element f l = Raise e -> exists x, x ∈ l /\ f x = Raise e.
Proof.
  induction l as [|x rest IH]; simpl; [discriminate|].
  destruct (f x) as [v|e'] eqn:Hx; simpl.
  - destruct (each_element f rest) as [vs|e'']; simpl; [discriminate|].
    intros [= <-]. destruct (IH eq_refl) as (y & Hin & Hy).
    exists y. split; [apply list_elem_of_further, Hin | exact Hy].
  - intros [= <-]. exists x. split; [apply list_elem_of_here | exact Hx].
Qed.

Lemma each_member_Ok l ps :
  each_member f l = Ok ps -> ps.*1 = l.*1 /\ Forall (fun m => exists v, f m.2 = Ok v) l.
Proof.
  revert ps. induction l as [|[k x] rest IH]; intros ps; simpl.
  - intros [= <-]. split; [reflexivity | constructor].
  - destruct (f x) as [v|e] eqn:Hx; simpl; [|discriminate].
    destruct (each_member f rest) as [ps'|e]; simpl; [|discriminate].
    intros [= <-]. destruct (IH _ eq_refl) as [Hkeys Hall]. split.
    + rewrite !fmap_cons. f_equal. exact Hkeys.
    + constructor; [exists v; exact Hx | exact Hall].
Qed.

Lemma each_member_Raise l e :
  each_member f l = Raise e -> exists m, m ∈ l /\ f m.2 = Raise e.
Proof.
  induction l as [|[k x] rest IH]; simpl; [discriminate|].
  destruct (f x) as [v|e'] eqn:Hx; simpl.
  - destruct (each_member f rest) as [ps|e'']; simpl; [discriminate|].
    intros [= <-]. destruct (IH eq_refl) as (m & Hin & Hm).
    exists m. split; [apply list_elem_of_further, Hin | exact Hm].
  - intros [= <-]. exists (k, x). split; [apply list_elem_of_here | exact Hx].
Qed.
End each_facts.

Lemma json_loads_outcome doc : decoded_or_rejected doc.
Proof.
  induction doc as [| | | | |elements IH|members IH] using json_induction;
    unfold decoded_or_rejected; cbn [json_loads];
    try (intros k Hdup; inversion Hdup; fail).
  - rewrite Forall_forall in IH.
    destruct (each_element _ elements) as [vs|e] eqn:Heach; simpl.
    + intros k Hdup. inversion Hdup as [| |? x Hin Hx]; subst.
      apply each_element_Ok in Heach. rewrite Forall_forall in Heach.
      destruct (Heach _ Hin) as [v Hv]. specialize (IH _ Hin).
      unfold decoded_or_rejected in IH. rewrite Hv in IH. exact (IH k Hx).
    + apply each_element_Raise in Heach as (x & Hin & Hx). specialize (IH _ Hin).
      unfold decoded_or_rejected in IH. rewrite Hx in IH. destruct IH as (k & Hdup & ->).
      exists k. split; [exact (duplicated_element k _ _ Hin Hdup) | reflexivity].
  - rewrite Forall_forall in IH.
    destruct (each_member _ members) as [ps|e] eqn:Heach; simpl.
    + apply each_member_Ok in Heach as [Hkeys Hall]. rewrite Forall_forall in Hall.
      destruct (errorOnDuplicateKeys ps) as [d|e] eqn:Hhook; simpl.
      * intros k Hdup. inversion Hdup as [? Hrep|? m Hin Hm|]; subst.
        -- apply errorOnDuplicateKeys_Ok in Hhook. rewrite Hkeys in Hhook.
           exact (repeated_not_NoDup _ _ Hrep Hhook).
        -- destruct (Hall _ Hin) as [v Hv]. specialize (IH _ Hin).
           unfold decoded_or_rejected in IH. rewrite Hv in IH. exact (IH k Hm).
      * apply errorOnDuplicateKeys_Raise in Hhook as (k & -> & Hrep).
        exists k. rewrite Hkeys in Hrep. split; [exact (duplicated_here k _ Hrep) | reflexivity].
    + apply each_member_Raise in Heach as (m & Hin & Hm). specialize (IH _ Hin).
      unfold decoded_or_rejected in IH. rewrite Hm in IH. destruct IH as (k & Hdup & ->).
      exists k. split; [exact (duplicated_member k _ _ Hin Hdup) | reflexivity].
Qed.

Lemma json_loads_duplicate doc :
  (exists k, duplicated k doc) ->
  exists k, duplicated k doc
    /\ json_loads errorOnDuplicateKeys doc = Raise (ValidationFailedError (duplicate_key_message k)).
Proof.
  intros [k0 Hdup]. pose proof (json_loads_outcome doc) as H. unfold decoded_or_rejected in H.
  destruct (json_loads errorOnDuplicateKeys doc) as [v|e].
  - exfalso. exact (H k0 Hdup).
  - destruct H as (k & Hk & ->). exists k. split; [exact Hk | reflexivity].
Qed.

(** ** [parseConfigFile]: the two ways through it *)

Lemma parseConfigFile_decode_raises configSpec path w doc e :
  files w !! path = Some (Document doc) ->
  json_loads errorOnDuplicateKeys doc = Raise e ->
  parseConfigFile configSpec path w = (Raise e, opened path w).
Proof.
  intros Hfile Hdoc. unfold parseConfigFile, io_bind, open_, json_load.
  rewrite Hfile. cbn [open_handles files]. rewrite lookup_insert_eq, Hfile, Hdoc. reflexivity.
Qed.

Lemma parseConfigFile_malformed configSpec path w :
  files w !! path = Some Malformed ->
  parseConfigFile configSpec path w
  = (Raise (BuiltinError "JSONDecodeError"), opened path w).
Proof.
  intros Hfile. unfold parseConfigFile, io_bind, open_, json_load.
  rewrite Hfile. cbn [open_handles files]. rewrite lookup_insert_eq, Hfile. reflexivity.
Qed.

Lemma parseConfigFile_decoded configSpec path w doc jsonConfig :
  files w !! path = Some (Document doc) ->
  json_loads errorOnDuplicateKeys doc = Ok jsonConfig ->
  parseConfigFile configSpec path w
  = (parseConfig configSpec jsonConfig, opened_and_closed path w).
Proof.
  intros Hfile Hdoc. unfold parseConfigFile, io_bind, open_, json_load.
  rewrite Hfile. cbn [open_handles files]. rewrite lookup_insert_eq, Hfile, Hdoc. reflexivity.
Qed.

(** Once the document is decoded the handle is closed, whether the schema
    accepts the decoded structure or [parseConfig] raises. *)
Lemma handle_closed_after_decoding configSpec path w doc jsonConfig :
  files w !! path = Some (Document doc) ->
  json_loads errorOnDuplicateKeys doc = Ok jsonConfig ->
  ~ is_open (next_handle w) (parseConfigFile configSpec path w).2.
Proof.
  intros Hfile Hdoc. rewrite (parseConfigFile_decoded _ _ _ _ _ Hfile Hdoc).
  unfold is_open. cbn [snd opened_and_closed open_handles].
  rewrite lookup_delete_eq. intros [p Hp]. discriminate.
Qed.

(** When decoding raises, [close] is not reached and the handle stays
    open. *)
Lemma handle_open_after_decode_error configSpec path w doc e :
  files w !! path = Some (Document doc) ->
  json_loads errorOnDuplicateKeys doc = Raise e ->
  is_open (next_handle w) (parseConfigFile configSpec path w).2.
Proof.
  intros Hfile Hdoc. rewrite (parseConfigFile_decode_raises _ _ _ _ _ Hfile Hdoc).
  unfold is_open. cbn [snd opened open_handles].
  rewrite lookup_insert_eq. exists path. reflexivity.
Qed.

(** C3, as stated, fails in one part: the message of the
    ValidationFailedError holds the key and the words "the config file", and
    not the path or any other name of the file that is parsed. *)
Lemma duplicate_key_message_omits_the_file :
  (parseConfigFile port_schema "settings.json" disk).1
  = Raise (ValidationFailedError
             "The key a was used multiple times in the same dictionary in the config file. Each key should be unique.")
  /\ is_substring "settings.json"
       "The key a was used multiple times in the same dictionary in the config file. Each key should be unique."
     = false.
Proof. split; vm_compute; reflexivity. Qed.

(** C3, amended.  When an object at any nesting level of the document in the
    file uses a key twice, decoding raises and so does [parseConfigFile]: the
    exception is a ValidationFailedError whose message names a key that an
    object of the document uses twice; the message is made of that key and a
    fixed text, whatever the path. *)
Theorem duplicate_key_is_rejected configSpec path w doc :
  files w !! path = Some (Document doc) ->
  (exists k, duplicated k doc) ->
  exists k, duplicated k doc
    /\ json_loads errorOnDuplicateKeys doc
       = Raise (ValidationFailedError (duplicate_key_message k))
    /\ (parseConfigFile configSpec path w).1
       = Raise (ValidationFailedError
                  ("The key " +:+ k +:+ " was used multiple times in the same dictionary in the config file. Each key should be unique.")).
Proof.
  intros Hfile Hdup. destruct (json_loads_duplicate doc Hdup) as (k & Hk & Hloads).
  exists k. split; [exact Hk|]. split; [exact Hloads|].
  rewrite (parseConfigFile_decode_raises _ _ _ _ _ Hfile Hloads). reflexivity.
Qed.

Lemma duplicated_in_nested_file :
  duplicated "a" (JObject [("outer", JArray [JInt 0; duplicate_a])]).
Proof.
  apply (duplicated_member "a" _ ("outer", JArray [JInt 0; duplicate_a])).
  - apply list_elem_of_here.
  - apply (duplicated_element "a" _ duplicate_a).
    + apply list_elem_of_further, list_elem_of_here.
    + apply duplicated_here. exists 0, 1. split; [lia|]. split; reflexivity.
Defined.

Lemma duplicate_key_is_rejected_witness :
  files disk !! "nested.json" = Some (Document (JObject [("outer", JArray [JInt 0; duplicate_a])]))
  /\ exists k, duplicated k (JObject [("outer", JArray [JInt 0; duplicate_a])])
       /\ json_loads errorOnDuplicateKeys (JObject [("outer", JArray [JInt 0; duplicate_a])])
          = Raise (ValidationFailedError (duplicate_key_message k))
       /\ (parseConfigFile port_schema "nested.json" disk).1
          = Raise (ValidationFailedError
                     ("The key " +:+ k +:+ " was used multiple times in the same dictionary in the config file. Each key should be unique.")).
Proof.
  assert (Hfile : files disk !! "nested.json"
                  = Some (Document (JObject [("outer", JArray [JInt 0; duplicate_a])])))
    by (vm_compute; reflexivity).
  split; [exact Hfile|].
  apply (duplicate_key_is_rejected port_schema "nested.json" disk _ Hfile).
  exists "a". exact duplicated_in_nested_file.
Defined.

(** C4 at the failing input: the file holds [{"a": 1, "a": 2}], the hook
    raises inside [json.load], and the handle that [open] returned (handle 0,
    not open before) is still open on the path when [parseConfigFile] has
    raised. *)
Theorem parseConfigFile_leaves_handle_open :
  open_handles disk !! 0 = None
  /\ (parseConfigFile port_schema "settings.json" disk).1
     = Raise (ValidationFailedError (duplicate_key_message "a"))
  /\ open_handles (parseConfigFile port_schema "settings.json" disk).2 !! 0
     = Some "settings.json".
Proof. repeat split; vm_compute; reflexivity. Qed.

(** ** More on the defaults *)

Lemma collect_Raise_item (f : ConfigItem -> result value) items acc e :
  collect f items acc = Raise e -> exists item, item ∈ items /\ f item = Raise e.
Proof.
  revert acc. induction items as [|item rest IH]; intros acc; simpl; [discriminate|].
  destruct (f item) as [v|e'] eqn:Hitem; simpl.
  - intros Hrest. destruct (IH _ Hrest) as (i & Hin & Hi).
    exists i. split; [apply list_elem_of_further, Hin | exact Hi].
  - intros [= <-]. exists item. split; [apply list_elem_of_here | exact Hitem].
Qed.

Lemma forallb_false {A} (f : A -> bool) (l : list A) :
  forallb f l = false -> exists x, x ∈ l /\ f x = false.
Proof.
  induction l as [|x l IH]; simpl; [discriminate|].
  destruct (f x) eqn:Hx; simpl.
  - intros H. destruct (IH H) as (y & Hin & Hy).
    exists y. split; [apply list_elem_of_further, Hin | exact Hy].
  - intros _. exists x. split; [apply list_elem_of_here | exact Hx].
Qed.

Lemma default_outcome_multi k ts d : default_outcome (MultiTypeConfigItem k ts d).
Proof.
  destruct d as [|v]; split; simpl; intros H; try discriminate.
  - exists k. split; [apply requires_here; reflexivity | reflexivity].
  - exists v. reflexivity.
Qed.

Lemma default_outcome_sub k t sub d :
  defaults_outcome sub -> default_outcome (TypeOrSubconfigConfigItem k t sub d).
Proof.
  intros [Hyes Hno]. destruct d as [|[|v]]; split; cbn [resolvable getDefault]; intros H;
    try discriminate.
  - destruct (Hyes H) as [defaults ->]. exists (VDict defaults). reflexivity.
  - destruct (Hno H) as (k' & Hreq & ->). exists k'.
    split; [apply requires_nested, Hreq | reflexivity].
  - exists k. split; [apply requires_here; reflexivity | reflexivity].
  - exists v. reflexivity.
Qed.

Lemma defaults_outcome_schema items val :
  Forall default_outcome items -> defaults_outcome (mkConfig items val).
Proof.
  intros IH. rewrite Forall_forall in IH. split; cbn [all_resolvable]; intros Hall;
    rewrite Config_getDefault_items.
  - apply collect_all_Ok. apply Forall_forall. intros item Hin.
    apply (IH _ Hin). rewrite forallb_forall in Hall. apply Hall, list_elem_of_In, Hin.
  - destruct (forallb_false _ _ Hall) as (item & Hin & Hitem).
    destruct (proj2 (IH _ Hin) Hitem) as (k0 & _ & Hraise).
    destruct (collect_raised getDefault items ∅ item Hin) as [e He];
      [eexists; exact Hraise|].
    destruct (collect_Raise_item _ _ _ _ He) as (first & Hfirst & Hfe).
    destruct (resolvable first) eqn:Hres.
    + destruct (proj1 (IH _ Hfirst) Hres) as [v Hv]. congruence.
    + destruct (proj2 (IH _ Hfirst) Hres) as (k & Hreq & Hk).
      exists k. split; [exact (requires_item k items val first Hfirst Hreq)|].
      rewrite He. congruence.
Qed.

(** X1.  [Config.getDefault] returns a mapping when every item has a
    declared default, the items of the nested schemas whose defaults are
    used included; otherwise it raises the ExpectedValueError of the key of
    such an item without a default, and never another exception. *)
Theorem getDefault_returns_or_names_key c :
  (all_resolvable c = true -> exists defaults, Config_getDefault c = Ok defaults)
  /\ (all_resolvable c = false ->
      exists k, requires k c /\ Config_getDefault c = Raise (ExpectedValueError_init k)).
Proof.
  exact (Config_induction default_outcome defaults_outcome
           default_outcome_multi default_outcome_sub defaults_outcome_schema c).
Qed.

Lemma getDefault_returns_or_names_key_witness :
  all_resolvable service_schema = false
  /\ exists k, requires k service_schema
       /\ Config_getDefault service_schema = Raise (ExpectedValueError_init k).
Proof.
  split; [reflexivity|].
  exact (proj2 (getDefault_returns_or_names_key service_schema) eq_refl).
Defined.

(** X2.  When [Config.getDefault] returns, the keys of the mapping are the
    declared keys, and with distinct keys the entry of each item is the
    default of that item. *)
Theorem getDefault_entries c defaults :
  Config_getDefault c = Ok defaults ->
  dom defaults = list_to_set (key <$> configItems c)
  /\ (NoDup (key <$> configItems c) ->
      forall item, item ∈ configItems c ->
        exists v, getDefault item = Ok v /\ defaults !! key item = Some v).
Proof.
  destruct c as [items val]. cbn [configItems]. rewrite Config_getDefault_items.
  intros Hdef. split.
  - rewrite (collect_dom _ _ _ _ Hdef), dom_empty_L, (left_id_L ∅ (∪)). reflexivity.
  - intros Hnd item Hin. exact (collect_lookup _ _ _ _ _ Hnd Hdef Hin).
Qed.

Lemma getDefault_entries_witness :
  dom ({[ "name" := VStr "node"; "db" := VDict {[ "host" := VStr "localhost" ]};
          "limit" := VNone ]} : gmap string value)
  = list_to_set (key <$> configItems server_schema)
  /\ exists v, getDefault (TypeOrSubconfigConfigItem "db" str host_schema UseSubDefaults) = Ok v
       /\ ({[ "name" := VStr "node"; "db" := VDict {[ "host" := VStr "localhost" ]};
               "limit" := VNone ]} : gmap string value) !! "db" = Some v.
Proof.
  assert (Hdef : Config_getDefault server_schema
                 = Ok {[ "name" := VStr "node"; "db" := VDict {[ "host" := VStr "localhost" ]};
                         "limit" := VNone ]}) by (vm_compute; reflexivity).
  assert (Hnd : NoDup (key <$> configItems server_schema)).
  { apply (bool_decide_unpack _). vm_compute. exact I. }
  destruct (getDefault_entries server_schema _ Hdef) as [Hdom Hentries].
  split; [exact Hdom|].
  apply (Hentries Hnd (TypeOrSubconfigConfigItem "db" str host_schema UseSubDefaults)).
  apply list_elem_of_further, list_elem_of_here.
Defined.

(** ** Inputs that hold none of the keys, and inputs that are no mapping *)

Lemma existsb_is_str k (l : list value) : existsb (is_str k) l = true <-> VStr k ∈ l.
Proof.
  induction l as [|x l IH]; simpl.
  - split; [discriminate|]. intros H. apply elem_of_nil in H as [].
  - rewrite orb_true_iff, IH, elem_of_cons. split.
    + intros [Hx|Hin]; [left | right; exact Hin].
      destruct x; simpl in Hx; try discriminate.
      apply String.eqb_eq in Hx as ->. reflexivity.
    + intros [<-|Hin]; [left | right; exact Hin]. simpl. apply String.eqb_refl.
Qed.

Lemma parse_not_contained item jsonConfig :
  py_contains jsonConfig (key item) = Ok false -> parse item jsonConfig = getDefault item.
Proof. intros H. unfold parse, ConfigItem_parse. rewrite H. reflexivity. Qed.

(** X3.  An input in which [in] finds none of the declared keys gives the
    defaults, and the exception of [getDefault] when that raises: a mapping
    without any declared key, and also a list that holds none of the keys as
    a string (a JSON array at the top of the file is not rejected). *)
Theorem parse_without_declared_keys c :
  (forall j : gmap string value,
     (forall item, item ∈ configItems c -> j !! key item = None) ->
     Config_parse c (VDict j) = Config_getDefault c)
  /\ (forall l : list value,
       (forall item, item ∈ configItems c -> VStr (key item) ∉ l) ->
       Config_parse c (VList l) = Config_getDefault c).
Proof.
  destruct c as [items val]. cbn [configItems].
  rewrite Config_getDefault_items. split.
  - intros j Hnone. rewrite Config_parse_items. apply collect_ext.
    intros item Hin. apply parse_absent, Hnone, Hin.
  - intros l Hnone. rewrite Config_parse_items. apply collect_ext.
    intros item Hin. apply parse_not_contained. simpl. f_equal.
    destruct (existsb (is_str (key item)) l) eqn:Hex; [|reflexivity].
    apply existsb_is_str in Hex. destruct (Hnone _ Hin Hex).
Qed.

Lemma parse_without_declared_keys_witness :
  Config_parse server_schema (VDict {[ "verbose" := VBool true ]})
  = Config_getDefault server_schema
  /\ Config_parse server_schema (VList [VInt 1; VStr "x"]) = Config_getDefault server_schema.
Proof.
  split.
  - apply (proj1 (parse_without_declared_keys server_schema)).
    intros item Hin. cbn [configItems server_schema] in Hin.
    repeat (apply elem_of_cons in Hin as [->|Hin]; [reflexivity|]).
    apply elem_of_nil in Hin as [].
  - apply (proj2 (parse_without_declared_keys server_schema)).
    intros item Hin Hl. cbn [configItems server_schema] in Hin.
    repeat (apply elem_of_cons in Hin as [->|Hin];
            [repeat (apply elem_of_cons in Hl as [Hl|Hl]; [discriminate|]);
             apply elem_of_nil in Hl as []|]).
    apply elem_of_nil in Hin as [].
Defined.

(** X4.  A schema without items accepts every input and returns the empty
    mapping; a schema with an item raises TypeError on an input that is
    [None], a bool or a number, and on a list that holds the key of its
    first item as a string. *)
Theorem parse_of_non_mapping item rest val :
  (forall jsonConfig, Config_parse (mkConfig [] val) jsonConfig = Ok ∅)
  /\ (forall jsonConfig,
       type jsonConfig ∈ [NoneType; bool_; int; float] ->
       Config_parse (mkConfig (item :: rest) val) jsonConfig = Raise (BuiltinError "TypeError"))
  /\ (forall l, VStr (key item) ∈ l ->
       Config_parse (mkConfig (item :: rest) val) (VList l) = Raise (BuiltinError "TypeError")).
Proof.
  split; [reflexivity|]. split.
  - intros jsonConfig Htype. rewrite Config_parse_items. cbn [collect].
    unfold parse, ConfigItem_parse.
    destruct jsonConfig; simpl in Htype; try reflexivity;
      exfalso; repeat (apply elem_of_cons in Htype as [Htype|Htype]; [discriminate|]);
      apply elem_of_nil in Htype as [].
  - intros l Hin. rewrite Config_parse_items. cbn [collect].
    unfold parse, ConfigItem_parse. simpl.
    rewrite (proj2 (existsb_is_str (key item) l) Hin). reflexivity.
Qed.

Lemma parse_of_non_mapping_witness :
  Config_parse port_schema (VInt 3) = Raise (BuiltinError "TypeError")
  /\ Config_parse port_schema (VList [VStr "port"]) = Raise (BuiltinError "TypeError").
Proof.
  pose proof (parse_of_non_mapping (TypedConfigItem "port" int (Default (VInt 80))) [] None)
    as (_ & Hscalar & Hlist).
  split.
  - apply (Hscalar (VInt 3)). simpl.
    apply list_elem_of_further, list_elem_of_further, list_elem_of_here.
  - apply (Hlist [VStr "port"]). apply list_elem_of_here.
Defined.

(** ** Keys declared twice, and the order of the items *)

(** X5.  When a key is declared by several items, the entry that
    [Config.parse] returns under it is the result of the last of them: each
    item overwrites the entry of the items before it. *)
Theorem last_declaration_wins pre item post val (j : gmap string value) values :
  key item ∉ key <$> post ->
  Config_parse (mkConfig (pre ++ item :: post) val) (VDict j) = Ok values ->
  exists v, parse item (VDict j) = Ok v /\ values !! key item = Some v.
Proof.
  intros Hlast. rewrite Config_parse_items, collect_app.
  destruct (collect _ pre ∅) as [mid|e]; simpl; [|discriminate].
  destruct (parse item (VDict j)) as [v|e]; simpl; [|discriminate].
  intros Hpost. exists v. split; [reflexivity|].
  rewrite (collect_lookup_other _ _ _ _ _ Hpost Hlast). apply lookup_insert_eq.
Qed.

Lemma last_declaration_wins_witness :
  exists v, parse (TypeOrSubconfigConfigItem "db" str host_schema UseSubDefaults)
              (VDict {[ "db" := VDict ∅ ]}) = Ok v
    /\ ({[ "db" := VDict {[ "host" := VStr "localhost" ]} ]} : gmap string value)
         !! key (TypeOrSubconfigConfigItem "db" str host_schema UseSubDefaults) = Some v.
Proof.
  apply (last_declaration_wins
           [TypedConfigItem "db" dict NoDefault]
           (TypeOrSubconfigConfigItem "db" str host_schema UseSubDefaults) [] None
           {[ "db" := VDict ∅ ]}).
  - intros Hin. apply elem_of_nil in Hin as [].
  - vm_compute. reflexivity.
Defined.

(** X6.  With distinct keys the order of the items does not change what
    [Config.parse] returns: a schema with the same items in another order
    returns the same mapping (when an item raises, both raise). *)
Theorem parse_ignores_item_order items items' val val' jsonConfig values :
  NoDup (key <$> items) -> items ≡ₚ items' ->
  Config_parse (mkConfig items val) jsonConfig = Ok values ->
  Config_parse (mkConfig items' val') jsonConfig = Ok values.
Proof.
  intros Hnd Hperm. rewrite !Config_parse_items. intros Hparse.
  assert (Hnd' : NoDup (key <$> items')) by (rewrite <- Hperm; exact Hnd).
  pose proof (collect_Ok_all _ _ _ _ Hparse) as Hall. rewrite Hperm in Hall.
  destruct (collect_all_Ok _ items' ∅ Hall) as [values' Hparse'].
  rewrite Hparse'. f_equal. apply map_eq. intros k.
  destruct (decide (k ∈ key <$> items)) as [Hk|Hk].
  - apply list_elem_of_fmap in Hk as (item & -> & Hin).
    destruct (collect_lookup _ _ _ _ _ Hnd Hparse Hin) as (v & Hv & ->).
    rewrite Hperm in Hin.
    destruct (collect_lookup _ _ _ _ _ Hnd' Hparse' Hin) as (v' & Hv' & ->).
    congruence.
  - rewrite (collect_lookup_other _ _ _ _ _ Hparse Hk).
    rewrite Hperm in Hk. rewrite (collect_lookup_other _ _ _ _ _ Hparse' Hk). reflexivity.
Qed.

Lemma parse_ignores_item_order_witness :
  Config_parse (mkConfig [MultiTypeConfigItem "limit" [int; NoneType] (Default VNone);
                          TypedConfigItem "name" str (Default (VStr "node"))] None)
               (VDict {[ "limit" := VInt 5 ]})
  = Ok {[ "name" := VStr "node"; "limit" := VInt 5 ]}.
Proof.
  apply (parse_ignores_item_order
           [TypedConfigItem "name" str (Default (VStr "node"));
            MultiTypeConfigItem "limit" [int; NoneType] (Default VNone)] _ None).
  - apply (bool_decide_unpack _). vm_compute. exact I.
  - apply Permutation_swap.
  - vm_compute. reflexivity.
Defined.

(** ** Parsing a parsed configuration *)

Lemma value_reparsed_multi k ts d : value_reparsed (MultiTypeConfigItem k ts d).
Proof.
  intros Hwf jsonConfig v. unfold parse, ConfigItem_parse. cbn [key getDefault].
  destruct (py_contains jsonConfig k) as [[|]|e]; simpl; try discriminate.
  - destruct (py_getitem jsonConfig k) as [raw|e]; simpl; [|discriminate].
    destruct (existsb (isinstance raw) ts) eqn:Hraw; [|discriminate].
    intros [= <-]. rewrite Hraw. reflexivity.
  - destruct d as [|d]; simpl; [discriminate|]. intros [= <-].
    simpl in Hwf. rewrite Hwf. reflexivity.
Qed.

Lemma reparse_nested k t sub d (values : gmap string value) :
  Config_parse sub (VDict values) = Ok values ->
  _parse (TypeOrSubconfigConfigItem k t sub d) (VDict values) = Ok (VDict values).
Proof.
  intros Hsub. cbn [_parse]. destruct (isinstance (VDict values) t); [reflexivity|].
  unfold isinstance. cbn [type issubclass pytype_eqb]. rewrite Hsub. reflexivity.
Qed.

Lemma value_reparsed_sub k t sub d :
  mapping_reparsed sub -> value_reparsed (TypeOrSubconfigConfigItem k t sub d).
Proof.
  intros IH Hwf jsonConfig v. unfold parse, ConfigItem_parse. cbn [key].
  assert (Hsub : well_formed sub = true).
  { destruct d as [|[|d]]; cbn [item_well_formed] in Hwf; [exact Hwf | exact Hwf|].
    apply andb_true_iff in Hwf as [_ Hwf]. exact Hwf. }
  destruct (py_contains jsonConfig k) as [[|]|e]; simpl; try discriminate.
  - destruct (py_getitem jsonConfig k) as [raw|e]; simpl; [|discriminate].
    destruct (isinstance raw t) eqn:Hraw.
    + intros [= <-]. rewrite Hraw. reflexivity.
    + destruct (isinstance raw dict); [|discriminate].
      destruct (Config_parse sub raw) as [values|e] eqn:Hparse; simpl; [|discriminate].
      intros [= <-]. apply (reparse_nested k t sub d values). exact (IH Hsub _ _ Hparse).
  - destruct d as [|[|d]]; cbn [getDefault ConfigItem_getDefault].
    + destruct (Config_getDefault sub) as [defaults|e] eqn:Hdef; simpl; [|discriminate].
      intros [= <-]. apply (reparse_nested k t sub UseSubDefaults defaults).
      apply (IH Hsub (VDict ∅)).
      rewrite Config_parse_empty. exact Hdef.
    + discriminate.
    + intros [= <-]. cbn [item_well_formed] in Hwf.
      apply andb_true_iff in Hwf as [Hd _]. cbn [_parse]. rewrite Hd. reflexivity.
Qed.

Lemma mapping_reparsed_schema items val :
  Forall value_reparsed items -> mapping_reparsed (mkConfig items val).
Proof.
  intros IH Hwf jsonConfig values Hparse.
  cbn [well_formed] in Hwf. apply andb_true_iff in Hwf as [Hnd Hwf].
  apply bool_decide_eq_true in Hnd. rewrite forallb_forall in Hwf.
  rewrite Forall_forall in IH.
  rewrite Config_parse_items in Hparse. rewrite Config_parse_items, <- Hparse.
  apply collect_ext. intros item Hin.
  destruct (collect_lookup _ _ _ _ _ Hnd Hparse Hin) as (v & Hv & Hlook).
  rewrite (parse_present _ _ _ Hlook), Hv.
  apply (IH _ Hin (Hwf _ (proj1 (list_elem_of_In _ _) Hin)) jsonConfig v Hv).
Qed.

(** X7.  Parsing is idempotent: in a schema whose keys are distinct and
    whose declared defaults pass the scalar type check of their item (the
    nested schemas included), a mapping that [Config.parse] returned parses
    to itself. *)
Theorem parse_is_idempotent c jsonConfig values :
  well_formed c = true ->
  Config_parse c jsonConfig = Ok values ->
  Config_parse c (VDict values) = Ok values.
Proof.
  intros Hwf.
  exact (Config_induction value_reparsed mapping_reparsed
           value_reparsed_multi value_reparsed_sub mapping_reparsed_schema
           c Hwf jsonConfig values).
Qed.

Lemma parse_is_idempotent_witness :
  well_formed server_schema = true
  /\ Config_parse server_schema (VDict {[ "db" := VDict {[ "host" := VStr "h"; "x" := VNone ]} ]})
     = Ok {[ "name" := VStr "node"; "db" := VDict {[ "host" := VStr "h" ]}; "limit" := VNone ]}
  /\ Config_parse server_schema
       (VDict {[ "name" := VStr "node"; "db" := VDict {[ "host" := VStr "h" ]};
                 "limit" := VNone ]})
     = Ok {[ "name" := VStr "node"; "db" := VDict {[ "host" := VStr "h" ]}; "limit" := VNone ]}.
Proof.
  assert (Hwf : well_formed server_schema = true) by (vm_compute; reflexivity).
  assert (Hparse : Config_parse server_schema
                     (VDict {[ "db" := VDict {[ "host" := VStr "h"; "x" := VNone ]} ]})
                   = Ok {[ "name" := VStr "node"; "db" := VDict {[ "host" := VStr "h" ]};
                           "limit" := VNone ]}) by (vm_compute; reflexivity).
  split; [exact Hwf|]. split; [exact Hparse|].
  exact (parse_is_idempotent server_schema _ _ Hwf Hparse).
Defined.

(** ** The exceptions of parsing a mapping *)

Lemma item_raises_own_multi k ts d : item_raises_own (MultiTypeConfigItem k ts d).
Proof.
  split.
  - intros e. destruct d as [|v]; simpl; [|discriminate].
    intros [= <-]. left. eexists. reflexivity.
  - intros jsonValue e. simpl. destruct (existsb (isinstance jsonValue) ts); [discriminate|].
    intros [= <-]. right. eexists. reflexivity.
Qed.

Lemma item_raises_own_sub k t sub d :
  schema_raises_own sub -> item_raises_own (TypeOrSubconfigConfigItem k t sub d).
Proof.
  intros [Hdef Hparse]. split.
  - intros e. destruct d as [|[|v]]; cbn [getDefault ConfigItem_getDefault].
    + destruct (Config_getDefault sub) as [defaults|e'] eqn:Hsub; simpl; [discriminate|].
      intros [= <-]. apply Hdef. reflexivity.
    + intros [= <-]. left. eexists. reflexivity.
    + discriminate.
  - intros jsonValue e. cbn [_parse].
    destruct (isinstance jsonValue t); [discriminate|].
    destruct jsonValue as [| | | | | |j]; try (intros [= <-]; right; eexists; reflexivity).
    unfold isinstance. cbn [type issubclass pytype_eqb].
    destruct (Config_parse sub (VDict j)) as [values|e'] eqn:Hsub; simpl; [discriminate|].
    intros [= <-]. exact (Hparse j e' Hsub).
Qed.

Lemma schema_raises_own_schema items val :
  Forall item_raises_own items -> schema_raises_own (mkConfig items val).
Proof.
  intros IH. rewrite Forall_forall in IH. split.
  - intros e. rewrite Config_getDefault_items. intros He.
    destruct (collect_Raise_item _ _ _ _ He) as (item & Hin & Hitem).
    exact (proj1 (IH _ Hin) e Hitem).
  - intros j e. rewrite Config_parse_items. intros He.
    destruct (collect_Raise_item _ _ _ _ He) as (item & Hin & Hitem).
    destruct (j !! key item) as [raw|] eqn:Hj.
    + rewrite (parse_present _ _ _ Hj) in Hitem. exact (proj2 (IH _ Hin) raw e Hitem).
    + rewrite (parse_absent _ _ Hj) in Hitem. exact (proj1 (IH _ Hin) e Hitem).
Qed.

(** X8.  On an input that is a mapping, [Config.parse] raises nothing but
    ExpectedValueError and InvalidTypeError, whatever the schema and the
    values of the mapping; the same holds of [Config.getDefault]. *)
Theorem mapping_raises_parser_exceptions c (j : gmap string value) e :
  Config_parse c (VDict j) = Raise e ->
  (exists message, e = ExpectedValueError message)
  \/ (exists message, e = InvalidTypeError message).
Proof.
  exact (proj2 (Config_induction item_raises_own schema_raises_own
                  item_raises_own_multi item_raises_own_sub schema_raises_own_schema c) j e).
Qed.

Lemma mapping_raises_parser_exceptions_witness :
  (exists message, InvalidTypeError_init "host" "[<class 'str'>]" "<class 'int'>" true
                   = ExpectedValueError message)
  \/ (exists message, InvalidTypeError_init "host" "[<class 'str'>]" "<class 'int'>" true
                      = InvalidTypeError message).
Proof.
  apply (mapping_raises_parser_exceptions service_schema
           {[ "db" := VDict {[ "host" := VInt 1 ]} ]}).
  vm_compute. reflexivity.
Defined.

(** X9.  A TypedConfigItem returns a value that is an instance of its type
    and raises on any other the InvalidTypeError with the words "Expected
    one of" and the list of its one type.  As [bool] is a subclass of
    [int], an item of type [int] accepts [true] and [false]; an item of type
    [float] rejects every [int]. *)
Theorem TypedConfigItem_parse k t d v :
  _parse (TypedConfigItem k t d) v
  = (if isinstance v t then Ok v
     else Raise (InvalidTypeError
                   ("Invalid type for " +:+ dquote +:+ k +:+ dquote +:+ ". Expected one of "
                    +:+ dquote +:+ ("[" +:+ repr_type t +:+ "]") +:+ dquote
                    +:+ ", but got " +:+ dquote +:+ repr_type (type v) +:+ dquote +:+ ".")))
  /\ (forall b, _parse (TypedConfigItem k int d) (VBool b) = Ok (VBool b))
  /\ (forall n, exists message,
        _parse (TypedConfigItem k float d) (VInt n) = Raise (InvalidTypeError message)).
Proof.
  split; [|split].
  - unfold TypedConfigItem. cbn [_parse existsb]. rewrite orb_false_r.
    destruct (isinstance v t); reflexivity.
  - intros b. reflexivity.
  - intros n. eexists. reflexivity.
Qed.

(** ** More on decoding *)

Lemma errorOnDuplicateKeys_from_first d orderedPairs e :
  errorOnDuplicateKeys_from d orderedPairs = Raise e ->
  exists pre k v post,
    orderedPairs = pre ++ (k, v) :: post
    /\ NoDup pre.*1
    /\ (forall k', k' ∈ pre.*1 -> d !! k' = None)
    /\ (k ∈ pre.*1 \/ is_Some (d !! k))
    /\ e = ValidationFailedError (duplicate_key_message k).
Proof.
  revert d. induction orderedPairs as [|[k0 v0] rest IH]; intros d; simpl; [discriminate|].
  destruct (bool_decide (is_Some (d !! k0))) eqn:Hseen.
  - apply bool_decide_eq_true in Hseen. intros [= <-].
    exists [], k0, v0, rest. split; [reflexivity|]. split; [constructor|].
    split; [intros k' Hk'; apply elem_of_nil in Hk' as []|].
    split; [right; exact Hseen | reflexivity].
  - apply bool_decide_eq_false in Hseen. intros Hrest.
    destruct (IH _ Hrest) as (pre & k & v & post & -> & Hnd & Hfresh & Hk & ->).
    exists ((k0, v0) :: pre), k, v, post. split; [reflexivity|].
    assert (Hk0 : k0 ∉ pre.*1).
    { intros Hin. specialize (Hfresh _ Hin). rewrite lookup_insert_eq in Hfresh. discriminate. }
    split; [rewrite fmap_cons; apply NoDup_cons; split; assumption|]. split; [|split].
    + intros k' Hk'. rewrite fmap_cons in Hk'. apply elem_of_cons in Hk' as [->|Hk'].
      * apply eq_None_not_Some, Hseen.
      * specialize (Hfresh _ Hk'). rewrite lookup_insert_ne in Hfresh; [exact Hfresh|].
        intros ->. exact (Hk0 Hk').
    + rewrite fmap_cons. destruct Hk as [Hk|Hk]; [left; apply list_elem_of_further, Hk|].
      destruct (decide (k0 = k)) as [->|Hne]; [left; apply list_elem_of_here|].
      right. rewrite lookup_insert_ne in Hk by exact Hne. exact Hk.
    + reflexivity.
Qed.

(** X10.  [errorOnDuplicateKeys] on pairs with distinct keys returns the
    dict that holds every pair.  On pairs with a repeated key it raises the
    ValidationFailedError that names the first key to come a second time:
    the pairs before that one have distinct keys and one of them has the
    same key. *)
Theorem errorOnDuplicateKeys_builds_or_names_first (orderedPairs : list (string * value)) :
  (NoDup orderedPairs.*1 ->
     errorOnDuplicateKeys orderedPairs = Ok (list_to_map orderedPairs)
     /\ forall k v, (k, v) ∈ orderedPairs ->
          (list_to_map orderedPairs : gmap string value) !! k = Some v)
  /\ (~ NoDup orderedPairs.*1 ->
      exists pre k v post,
        orderedPairs = pre ++ (k, v) :: post /\ NoDup pre.*1 /\ k ∈ pre.*1
        /\ errorOnDuplicateKeys orderedPairs
           = Raise (ValidationFailedError (duplicate_key_message k))).
Proof.
  split.
  - intros Hnd. split; [|intros k v Hin; apply elem_of_list_to_map_1; assumption].
    destruct (errorOnDuplicateKeys orderedPairs) as [d|e] eqn:Hhook.
    + rewrite (errorOnDuplicateKeys_returns _ _ Hhook). reflexivity.
    + apply errorOnDuplicateKeys_Raise in Hhook as (k & _ & Hrep).
      destruct (repeated_not_NoDup _ _ Hrep Hnd).
  - intros Hdup. destruct (errorOnDuplicateKeys orderedPairs) as [d|e] eqn:Hhook.
    + destruct (Hdup (errorOnDuplicateKeys_Ok _ _ Hhook)).
    + destruct (errorOnDuplicateKeys_from_first _ _ _ Hhook)
        as (pre & k & v & post & Hsplit & Hnd & _ & [Hk|Hk] & ->).
      * exists pre, k, v, post. repeat split; assumption.
      * rewrite lookup_empty in Hk. destruct Hk as [x Hx]. discriminate.
Qed.

Lemma errorOnDuplicateKeys_builds_or_names_first_witness :
  (errorOnDuplicateKeys [("a", VInt 1); ("b", VInt 2)]
   = Ok (list_to_map [("a", VInt 1); ("b", VInt 2)])
   /\ forall k v, (k, v) ∈ [("a", VInt 1); ("b", VInt 2)] ->
        (list_to_map [("a", VInt 1); ("b", VInt 2)] : gmap string value) !! k = Some v)
  /\ exists pre k v post,
       [("a", VInt 1); ("b", VInt 2); ("b", VInt 3); ("a", VInt 4)] = pre ++ (k, v) :: post
       /\ NoDup pre.*1 /\ k ∈ pre.*1
       /\ errorOnDuplicateKeys [("a", VInt 1); ("b", VInt 2); ("b", VInt 3); ("a", VInt 4)]
          = Raise (ValidationFailedError (duplicate_key_message k)).
Proof.
  split.
  - apply (proj1 (errorOnDuplicateKeys_builds_or_names_first
                    [("a", VInt 1); ("b", VInt 2)])).
    apply (bool_decide_unpack _). vm_compute. exact I.
  - apply (proj2 (errorOnDuplicateKeys_builds_or_names_first
                    [("a", VInt 1); ("b", VInt 2); ("b", VInt 3); ("a", VInt 4)])).
    intros Hnd. apply (bool_decide_pack _) in Hnd. vm_compute in Hnd. exact Hnd.
Defined.

Lemma decoded_has_no_duplicate doc v :
  json_loads errorOnDuplicateKeys doc = Ok v -> forall k, ~ duplicated k doc.
Proof.
  intros Hloads. pose proof (json_loads_outcome doc) as Hout.
  unfold decoded_or_rejected in Hout. rewrite Hloads in Hout. exact Hout.
Qed.

(** X11.  Decoding with the hook returns a value exactly when no object of
    the document, at any nesting level, uses a key twice; the value decoded
    from an object is a dict with the keys of the object. *)
Theorem json_loads_returns_iff_no_duplicate doc :
  ((exists v, json_loads errorOnDuplicateKeys doc = Ok v) <-> (forall k, ~ duplicated k doc))
  /\ (forall members v,
       doc = JObject members -> json_loads errorOnDuplicateKeys doc = Ok v ->
       exists d, v = VDict d /\ dom d = list_to_set members.*1).
Proof.
  pose proof (json_loads_outcome doc) as Hout. unfold decoded_or_rejected in Hout. split.
  - destruct (json_loads errorOnDuplicateKeys doc) as [v|e]; split.
    + intros _. exact Hout.
    + intros _. exists v. reflexivity.
    + intros [v Hv]. discriminate.
    + intros Hnone. destruct Hout as (k & Hk & _). destruct (Hnone k Hk).
  - intros members v -> . cbn [json_loads].
    destruct (each_member _ members) as [ps|e] eqn:Heach; simpl; [|discriminate].
    destruct (errorOnDuplicateKeys ps) as [d|e] eqn:Hhook; simpl; [|discriminate].
    intros [= <-]. exists d. split; [reflexivity|].
    apply each_member_Ok in Heach as [Hkeys _].
    rewrite (errorOnDuplicateKeys_returns _ _ Hhook), dom_list_to_map_L, Hkeys. reflexivity.
Qed.

Lemma json_loads_returns_iff_no_duplicate_witness :
  (forall k, ~ duplicated k (JObject [("port", JInt 8080); ("debug", JBool true)]))
  /\ exists d, VDict {[ "port" := VInt 8080; "debug" := VBool true ]} = VDict d
       /\ dom d = list_to_set [("port", JInt 8080); ("debug", JBool true)].*1.
Proof.
  pose proof (json_loads_returns_iff_no_duplicate
                (JObject [("port", JInt 8080); ("debug", JBool true)])) as [Hiff Hobject].
  split.
  - apply (proj1 Hiff). eexists. vm_compute. reflexivity.
  - apply (Hobject _ _ eq_refl). vm_compute. reflexivity.
Defined.

(** ** More on [parseConfigFile] *)

(** X12.  Whatever happens, [parseConfigFile] leaves the files as they are
    and touches no handle but the one it opens; when there is no file at the
    path it raises FileNotFoundError and the world is unchanged. *)
Theorem parseConfigFile_frame configSpec path w :
  files (parseConfigFile configSpec path w).2 = files w
  /\ (forall fp, fp <> next_handle w ->
       open_handles (parseConfigFile configSpec path w).2 !! fp = open_handles w !! fp)
  /\ (files w !! path = None ->
      parseConfigFile configSpec path w = (Raise (BuiltinError "FileNotFoundError"), w)).
Proof.
  unfold parseConfigFile, io_bind, open_, json_load.
  destruct (files w !! path) as [text|] eqn:Hfile; cbn [open_handles files].
  - rewrite lookup_insert_eq, Hfile.
    destruct text as [doc|]; [destruct (json_loads errorOnDuplicateKeys doc) as [v|e]|];
      cbn [snd fst files open_handles close io_pure]; (split; [reflexivity|]);
      (split; [|discriminate]); intros fp Hfp.
    + rewrite lookup_delete_ne by congruence. apply lookup_insert_ne. congruence.
    + apply lookup_insert_ne. congruence.
    + apply lookup_insert_ne. congruence.
  - split; [reflexivity|]. split; [reflexivity|]. reflexivity.
Qed.

Lemma parseConfigFile_frame_witness :
  open_handles (parseConfigFile port_schema "settings.json" good_disk).2 !! 3 = Some "other.log"
  /\ parseConfigFile port_schema "absent.json" good_disk
     = (Raise (BuiltinError "FileNotFoundError"), good_disk).
Proof.
  pose proof (parseConfigFile_frame port_schema "settings.json" good_disk) as (_ & Hother & _).
  pose proof (parseConfigFile_frame port_schema "absent.json" good_disk) as (_ & _ & Habsent).
  split.
  - rewrite (Hother 3) by (vm_compute; discriminate). vm_compute. reflexivity.
  - apply Habsent. vm_compute. reflexivity.
Defined.

(** X13.  For a file whose document uses no key twice in an object,
    [parseConfigFile] returns what [parseConfig] returns (or raises what it
    raises) on the decoded document, and the handles that are open afterwards
    are those that were open before. *)
Theorem parseConfigFile_of_decodable configSpec path w doc :
  files w !! path = Some (Document doc) ->
  (forall k, ~ duplicated k doc) ->
  open_handles w !! next_handle w = None ->
  exists jsonConfig,
    json_loads errorOnDuplicateKeys doc = Ok jsonConfig
    /\ (parseConfigFile configSpec path w).1 = parseConfig configSpec jsonConfig
    /\ open_handles (parseConfigFile configSpec path w).2 = open_handles w.
Proof.
  intros Hfile Hnone Hfresh.
  pose proof (json_loads_outcome doc) as Hout. unfold decoded_or_rejected in Hout.
  destruct (json_loads errorOnDuplicateKeys doc) as [jsonConfig|e] eqn:Hloads.
  - exists jsonConfig. split; [reflexivity|].
    rewrite (parseConfigFile_decoded _ _ _ _ _ Hfile Hloads).
    split; [reflexivity|]. cbn [snd opened_and_closed open_handles].
    apply delete_insert_id, Hfresh.
  - destruct Hout as (k & Hk & _). destruct (Hnone k Hk).
Qed.

Lemma parseConfigFile_of_decodable_witness :
  exists jsonConfig,
    json_loads errorOnDuplicateKeys (JObject [("port", JInt 8080); ("debug", JBool true)])
    = Ok jsonConfig
    /\ (parseConfigFile port_schema "settings.json" good_disk).1
       = parseConfig port_schema jsonConfig
    /\ open_handles (parseConfigFile port_schema "settings.json" good_disk).2
       = open_handles good_disk.
Proof.
  apply (parseConfigFile_of_decodable port_schema "settings.json" good_disk).
  - vm_compute. reflexivity.
  - apply (decoded_has_no_duplicate _ (VDict {[ "port" := VInt 8080; "debug" := VBool true ]})).
    vm_compute. reflexivity.
  - vm_compute. reflexivity.
Defined.

(** * Properties of the statistics script *)

Import synthesize_network_stats.

(** ** The order of the keys *)

Lemma Qlt_bool_iff x y : Qlt_bool x y = true <-> (x < y)%Q.
Proof.
  unfold Qlt_bool. rewrite negb_true_iff. split.
  - intros H. apply Qnot_le_lt. intros Hle. apply Qle_bool_iff in Hle. congruence.
  - intros H. destruct (Qle_bool y x) eqn:Hle; [|reflexivity].
    apply Qle_bool_iff in Hle. exfalso. exact (Qlt_not_le _ _ H Hle).
Qed.

Lemma Zltb_Qlt n m : (n <? m)%Z = true <-> (inject_Z n < inject_Z m)%Q.
Proof. rewrite Z.ltb_lt. unfold Qlt. simpl. lia. Qed.

Lemma rank_lt_level a b : (a.1 < b.1)%Z -> rank_lt a b.
Proof. intros H. left. exact H. Qed.

Lemma rank_lt_not_level a b : (b.1 < a.1)%Z -> ~ rank_lt a b.
Proof. intros H [H'|[H' _]]; lia. Qed.

Lemma rank_lt_not_value a b : a.2 = 0%Q -> b.2 = 0%Q -> a.1 = b.1 -> ~ rank_lt a b.
Proof.
  intros Ha Hb Hlevel [H|[_ H]]; [lia|]. rewrite Ha, Hb in H. exact (Qlt_irrefl _ H).
Qed.

Lemma rank_lt_value a b : a.1 = b.1 -> rank_lt a b <-> (a.2 < b.2)%Q.
Proof. intros Hlevel. split; [intros [H|[_ H]]; [lia | exact H] | intros H; right; split; assumption]. Qed.

(** Away from NaN, [<] is the order of the ranks. *)
Lemma py_lt_rank a b :
  is_nan a = false -> is_nan b = false ->
  py_lt a b = true <-> rank_lt (rank a) (rank b).
Proof.
  destruct a as [n|[x| | |]|], b as [m|[y| | |]|]; intros Ha Hb; try discriminate;
    cbn [py_lt float_lt NoBibc___lt__ NoBibc___gt__ NoBibc___le__ NoBibc___eq__ negb andb rank];
    try (split; [intros _; apply rank_lt_level; simpl; lia | reflexivity]);
    try (split; [discriminate | intros H; exfalso; revert H; apply rank_lt_not_level; simpl; lia]);
    try (split; [discriminate
                | intros H; exfalso; revert H; apply rank_lt_not_value; reflexivity]);
    rewrite rank_lt_value by reflexivity; cbn [fst snd];
    [apply Zltb_Qlt | apply Qlt_bool_iff | apply Qlt_bool_iff | apply Qlt_bool_iff].
Qed.

Lemma rank_lt_irrefl a : ~ rank_lt a a.
Proof. intros [H|[_ H]]; [lia | exact (Qlt_irrefl _ H)]. Qed.

Lemma rank_lt_trans a b c : rank_lt a b -> rank_lt b c -> rank_lt a c.
Proof.
  intros [H1|[E1 H1]] [H2|[E2 H2]]; try (left; lia).
  right. split; [lia | exact (Qlt_trans _ _ _ H1 H2)].
Qed.

Lemma rank_lt_between a b c : rank_lt a c -> rank_lt a b \/ rank_lt b c.
Proof.
  intros Hac. destruct (Z_lt_le_dec a.1 b.1) as [Hab|Hba]; [left; left; exact Hab|].
  destruct (Z_lt_le_dec b.1 c.1) as [Hbc|Hcb]; [right; left; exact Hbc|].
  destruct Hac as [Hac|[Hac Hvalue]]; [lia|].
  destruct (Qlt_le_dec a.2 b.2) as [Hlt|Hle].
  - left. right. split; [lia | exact Hlt].
  - right. right. split; [lia | exact (Qle_lt_trans _ _ _ Hle Hvalue)].
Qed.

Lemma py_lt_irrefl a : py_lt a a = false.
Proof.
  destruct (is_nan a) eqn:Hnan; [destruct a as [n|[x| | |]|]; try discriminate; reflexivity|].
  destruct (py_lt a a) eqn:H; [|reflexivity].
  apply py_lt_rank in H; [|assumption..]. destruct (rank_lt_irrefl _ H).
Qed.

(** NaN is below nothing, and nothing but a NoBibc is below it. *)
Lemma py_lt_nan_l a : py_lt (Float NaN) a = false.
Proof. destruct a as [n|[x| | |]|]; reflexivity. Qed.

Lemma py_lt_nan_r a : py_lt a (Float NaN) = true <-> a = NoBibc.
Proof.
  destruct a as [n|[x| | |]|]; simpl; split; intros H; try discriminate; reflexivity.
Qed.

Lemma py_lt_NoBibc_r a : py_lt a NoBibc = false.
Proof. destruct a as [n|[x| | |]|]; reflexivity. Qed.

Lemma is_nan_true a : is_nan a = true -> a = Float NaN.
Proof. destruct a as [n|[x| | |]|]; try discriminate. reflexivity. Qed.

Lemma py_lt_trans a b c : py_lt a b = true -> py_lt b c = true -> py_lt a c = true.
Proof.
  intros Hab Hbc.
  destruct (is_nan b) eqn:Hb.
  { apply is_nan_true in Hb. subst b. rewrite py_lt_nan_l in Hbc. discriminate. }
  destruct (is_nan a) eqn:Ha.
  { apply is_nan_true in Ha. subst a. rewrite py_lt_nan_l in Hab. discriminate. }
  destruct (is_nan c) eqn:Hc.
  { apply is_nan_true in Hc. subst c. apply py_lt_nan_r in Hbc. subst b.
    rewrite py_lt_NoBibc_r in Hab. discriminate. }
  apply py_lt_rank; [assumption..|].
  apply py_lt_rank in Hab; [|assumption..]. apply py_lt_rank in Hbc; [|assumption..].
  exact (rank_lt_trans _ _ _ Hab Hbc).
Qed.

Lemma py_lt_between a b c :
  is_nan b = false -> py_lt a c = true -> py_lt a b = true \/ py_lt b c = true.
Proof.
  intros Hb Hac.
  destruct (is_nan a) eqn:Ha.
  { apply is_nan_true in Ha. subst a. rewrite py_lt_nan_l in Hac. discriminate. }
  destruct (is_nan c) eqn:Hc.
  { apply is_nan_true in Hc. subst c. apply py_lt_nan_r in Hac. subst a.
    destruct b as [m|[y| | |]|]; try discriminate; [left; reflexivity..|right; reflexivity]. }
  apply py_lt_rank in Hac; [|assumption..].
  destruct (rank_lt_between _ (rank b) _ Hac) as [H|H]; [left|right];
    apply py_lt_rank; assumption.
Qed.

(** The keys of a network without a NaN BiBC are not NaN. *)
Lemma replace_None_comparable items name :
  without_nan items ->
  Forall (fun nodeStats : string * node_stats => is_nan (getitem nodeStats.2 name) = false)
    (prod_map id replace_None <$> items).
Proof.
  intros Hitems. apply Forall_fmap. eapply Forall_impl; [exact Hitems|].
  intros [node s] Hs. cbn [prod_map fst snd id compose] in *. destruct name; [reflexivity|].
  unfold replace_None. destruct (raw_bibc s) as [[x| | |]|]; try reflexivity. congruence.
Qed.

(** ** The sorted list and its head

    [comparable] holds of the keys that [lt] orders. *)

Section sorted_reverse_facts.
Context {A K : Type}.
Variable lt : K -> K -> bool.
Variable comparable : K -> Prop.
Hypothesis lt_irrefl : forall a, lt a a = false.
Hypothesis lt_trans : forall a b c, comparable a -> comparable b -> comparable c ->
  lt a b = true -> lt b c = true -> lt a c = true.
Hypothesis lt_between : forall a b c, comparable a -> comparable b -> comparable c ->
  lt a c = true -> lt a b = true \/ lt b c = true.

Lemma lt_asym a b : comparable a -> comparable b -> lt a b = true -> lt b a = false.
Proof.
  intros Ha Hb Hab. destruct (lt b a) eqn:Hba; [|reflexivity].
  rewrite <- (lt_irrefl a). symmetry. exact (lt_trans _ _ _ Ha Hb Ha Hab Hba).
Qed.

Lemma not_lt_trans a b c :
  comparable a -> comparable b -> comparable c ->
  lt a b = false -> lt b c = false -> lt a c = false.
Proof.
  intros Ha Hb Hc Hab Hbc. destruct (lt a c) eqn:Hac; [|reflexivity].
  destruct (lt_between a b c Ha Hb Hc Hac); congruence.
Qed.

Variable key : A -> K.

Lemma insort_Permutation x l : insort lt key x l ≡ₚ x :: l.
Proof.
  induction l as [|y rest IH]; simpl; [reflexivity|].
  destruct (lt (key x) (key y)); [|reflexivity].
  rewrite IH. apply Permutation_swap.
Qed.

Lemma sorted_reverse_Permutation l : sorted_reverse lt key l ≡ₚ l.
Proof.
  induction l as [|x rest IH]; simpl; [reflexivity|].
  rewrite insort_Permutation, IH. reflexivity.
Qed.

Lemma sorted_reverse_nonempty l : l <> [] -> sorted_reverse lt key l <> [].
Proof.
  intros Hl Hsorted. pose proof (sorted_reverse_Permutation l) as Hperm.
  rewrite Hsorted in Hperm. apply Permutation_nil_l in Hperm. exact (Hl (eq_sym Hperm)).
Qed.

Lemma insort_descending x l :
  comparable (key x) -> Forall (fun y => comparable (key y)) l ->
  descending lt key l -> descending lt key (insort lt key x l).
Proof.
  intros Hx. induction l as [|y rest IH]; simpl.
  - intros _ _. split; [constructor | exact I].
  - intros Hl [Hy Hrest]. apply Forall_cons in Hl as [Hcy Hcrest].
    destruct (lt (key x) (key y)) eqn:Hxy; simpl.
    + split; [|exact (IH Hcrest Hrest)].
      rewrite insort_Permutation. constructor; [exact (lt_asym _ _ Hx Hcy Hxy) | exact Hy].
    + split; [|split; assumption].
      constructor; [exact Hxy|].
      rewrite Forall_forall in Hy, Hcrest. apply Forall_forall. intros z Hz.
      exact (not_lt_trans _ _ _ Hx Hcy (Hcrest _ Hz) Hxy (Hy _ Hz)).
Qed.

Lemma sorted_reverse_descending l :
  Forall (fun y => comparable (key y)) l -> descending lt key (sorted_reverse lt key l).
Proof.
  induction l as [|x rest IH]; simpl; [intros _; exact I|].
  intros Hl. apply Forall_cons in Hl as [Hx Hrest]. apply insort_descending.
  - exact Hx.
  - rewrite sorted_reverse_Permutation. exact Hrest.
  - exact (IH Hrest).
Qed.

Lemma descending_after pre h post :
  descending lt key (pre ++ h :: post) -> Forall (fun y => lt (key h) (key y) = false) post.
Proof.
  induction pre as [|x pre IH]; simpl; intros [Hx Hrest]; [exact Hx | exact (IH Hrest)].
Qed.

(** The head of the sorted list is the first element of the input whose key
    no element exceeds: the elements before it have smaller keys. *)
Lemma sorted_reverse_head l h rest :
  Forall (fun y => comparable (key y)) l ->
  sorted_reverse lt key l = h :: rest ->
  exists pre post, l = pre ++ h :: post
    /\ Forall (fun y => lt (key y) (key h) = true) pre
    /\ Forall (fun y => lt (key h) (key y) = false) post.
Proof.
  revert h rest. induction l as [|x l IH]; intros h rest Hl; simpl; [discriminate|].
  apply Forall_cons in Hl as [Hx Hl].
  destruct (sorted_reverse lt key l) as [|h' rest'] eqn:Hsorted; simpl.
  - intros [= <- <-]. exists [], l. split; [reflexivity|]. split; [constructor|].
    pose proof (sorted_reverse_Permutation l) as Hperm. rewrite Hsorted in Hperm.
    apply Permutation_nil_l in Hperm. subst l. constructor.
  - destruct (IH _ _ Hl eq_refl) as (pre & post & -> & Hpre & Hpost).
    apply Forall_app in Hl as [Hcpre Hcpost]. apply Forall_cons in Hcpost as [Hch Hcpost].
    rewrite Forall_forall in Hpre, Hpost, Hcpre, Hcpost.
    destruct (lt (key x) (key h')) eqn:Hxh.
    + intros [= <- <-]. exists (x :: pre), post.
      split; [reflexivity|]. split; apply Forall_forall; [|exact Hpost].
      intros y Hy. apply elem_of_cons in Hy as [->|Hy]; [exact Hxh | exact (Hpre _ Hy)].
    + intros [= <- <-]. exists [], (pre ++ h' :: post).
      split; [reflexivity|]. split; [constructor|].
      apply Forall_forall. intros y Hy.
      apply elem_of_app in Hy as [Hy|Hy]; [|apply elem_of_cons in Hy as [->|Hy]].
      * destruct (lt (key x) (key y)) eqn:Hxy; [|reflexivity].
        rewrite <- Hxh. symmetry.
        exact (lt_trans _ _ _ Hx (Hcpre _ Hy) Hch Hxy (Hpre _ Hy)).
      * exact Hxh.
      * exact (not_lt_trans _ _ _ Hx Hch (Hcpost _ Hy) Hxh (Hpost _ Hy)).
Qed.
End sorted_reverse_facts.

Lemma py_lt_trans_comparable a b c :
  is_nan a = false -> is_nan b = false -> is_nan c = false ->
  py_lt a b = true -> py_lt b c = true -> py_lt a c = true.
Proof. intros _ _ _. apply py_lt_trans. Qed.

Lemma py_lt_between_comparable a b c :
  is_nan a = false -> is_nan b = false -> is_nan c = false ->
  py_lt a c = true -> py_lt a b = true \/ py_lt b c = true.
Proof. intros _ Hb _. apply py_lt_between, Hb. Qed.

(** Sorting by a second key and then by a first one puts at the head an
    element that no element exceeds in the first key, and that no element
    with an equal first key exceeds in the second. *)
Lemma two_key_head {A} (key1 key2 : A -> obj) (l : list A) h rest :
  Forall (fun y => is_nan (key1 y) = false) l ->
  Forall (fun y => is_nan (key2 y) = false) l ->
  sorted_reverse py_lt key1 (sorted_reverse py_lt key2 l) = h :: rest ->
  forall y, y ∈ l ->
    py_lt (key1 y) (key1 h) = true
    \/ (py_lt (key1 h) (key1 y) = false /\ py_lt (key2 h) (key2 y) = false).
Proof.
  intros Hkey1 Hkey2 Hsorted.
  pose proof (sorted_reverse_Permutation py_lt key2 l) as Hperm.
  assert (Hkey1' : Forall (fun y => is_nan (key1 y) = false) (sorted_reverse py_lt key2 l)).
  { rewrite Hperm. exact Hkey1. }
  destruct (sorted_reverse_head py_lt _ py_lt_trans_comparable py_lt_between_comparable
              key1 _ _ _ Hkey1' Hsorted) as (pre & post & Hsplit & Hpre & Hpost).
  pose proof (sorted_reverse_descending py_lt _ py_lt_irrefl py_lt_trans_comparable
                py_lt_between_comparable key2 l Hkey2) as Hdesc.
  rewrite Hsplit in Hdesc. apply descending_after in Hdesc.
  rewrite Hsplit in Hperm.
  rewrite Forall_forall in Hpre, Hpost, Hdesc.
  intros y Hy. rewrite <- Hperm in Hy.
  apply elem_of_app in Hy as [Hy|Hy]; [left; exact (Hpre _ Hy)|].
  apply elem_of_cons in Hy as [->|Hy]; right.
  - split; apply py_lt_irrefl.
  - split; [exact (Hpost _ Hy) | exact (Hdesc _ Hy)].
Qed.

(** ** The node selected *)

Lemma topNode_returns flipPriority items :
  items <> [] -> exists top, topNode flipPriority items = Ok top.
Proof.
  intros Hitems. unfold topNode, sortedStats.
  destruct (priority flipPriority) as [stat1 stat2].
  assert (Hreplaced : prod_map id replace_None <$> items <> []).
  { destruct items; [congruence | discriminate]. }
  destruct (sorted_reverse py_lt (fun nodeStats => getitem nodeStats.2 stat1) _)
    as [|top rest] eqn:Hsorted.
  - exfalso. revert Hsorted. apply sorted_reverse_nonempty, sorted_reverse_nonempty, Hreplaced.
  - exists top. reflexivity.
Qed.

Lemma sortedStats_Permutation flipPriority items :
  sortedStats flipPriority items ≡ₚ prod_map id replace_None <$> items.
Proof.
  unfold sortedStats. destruct (priority flipPriority) as [stat1 stat2].
  rewrite !sorted_reverse_Permutation. reflexivity.
Qed.

Lemma topNode_elem flipPriority items top :
  topNode flipPriority items = Ok top -> top ∈ prod_map id replace_None <$> items.
Proof.
  unfold topNode. pose proof (sortedStats_Permutation flipPriority items) as Hperm.
  destruct (sortedStats flipPriority items) as [|top' rest]; [discriminate|].
  intros [= <-]. rewrite <- Hperm. apply list_elem_of_here.
Qed.

Lemma topNode_raises flipPriority items e :
  topNode flipPriority items = Raise e -> items = [] /\ e = BuiltinError "IndexError".
Proof.
  destruct items as [|item items];
    [destruct flipPriority; intros [= <-]; split; reflexivity|].
  intros Hraise. exfalso.
  destruct (topNode_returns flipPriority (item :: items)) as (top & Htop); [discriminate|].
  congruence.
Qed.

(** In a network without a NaN BiBC the node selected comes below no node. *)
Lemma topNode_maximum flipPriority items top :
  without_nan items -> topNode flipPriority items = Ok top ->
  forall other, other ∈ prod_map id replace_None <$> items ->
    below flipPriority top other = false.
Proof.
  intros Hnan. unfold topNode, sortedStats, below, lex_lt.
  pose proof (replace_None_comparable items (priority flipPriority).1 Hnan) as Hkey1.
  pose proof (replace_None_comparable items (priority flipPriority).2 Hnan) as Hkey2.
  destruct (priority flipPriority) as [stat1 stat2]. cbn [fst snd] in *.
  destruct (sorted_reverse py_lt (fun nodeStats => getitem nodeStats.2 stat1) _)
    as [|top' rest] eqn:Hsorted; [discriminate|].
  intros [= <-] other Hother.
  assert (Htop : top' ∈ prod_map id replace_None <$> items).
  { rewrite <- (sorted_reverse_Permutation py_lt (fun nodeStats => getitem nodeStats.2 stat2)),
      <- (sorted_reverse_Permutation py_lt (fun nodeStats => getitem nodeStats.2 stat1)),
      Hsorted. apply list_elem_of_here. }
  destruct (two_key_head _ _ _ _ _ Hkey1 Hkey2 Hsorted other Hother) as [Hlt|[Hkey Hsecond]].
  - rewrite Forall_forall in Hkey1.
    rewrite (lt_asym py_lt _ py_lt_irrefl py_lt_trans_comparable _ _
               (Hkey1 _ Hother) (Hkey1 _ Htop) Hlt), Hlt. reflexivity.
  - rewrite Hkey, Hsecond. apply andb_false_r.
Qed.

Lemma synthesize_all flipPriority allStats :
  Forall (fun items => items <> []) allStats ->
  exists tops, synthesize flipPriority allStats = Ok tops /\ length tops = length allStats.
Proof.
  induction allStats as [|items rest IH]; intros Hall; simpl.
  - exists []. split; reflexivity.
  - apply Forall_cons in Hall as [Hitems Hrest].
    destruct (topNode_returns flipPriority items Hitems) as (top & ->).
    destruct (IH Hrest) as (tops & -> & Hlen). simpl.
    exists (top :: tops). split; [reflexivity | simpl; rewrite Hlen; reflexivity].
Qed.

Lemma synthesize_lookup flipPriority allStats tops i items :
  synthesize flipPriority allStats = Ok tops -> allStats !! i = Some items ->
  exists top, topNode flipPriority items = Ok top /\ tops !! i = Some top.
Proof.
  revert tops i. induction allStats as [|first rest IH]; intros tops i; simpl; [discriminate|].
  destruct (topNode flipPriority first) as [top|e] eqn:Htop; simpl; [|discriminate].
  destruct (synthesize flipPriority rest) as [tops'|e] eqn:Hrest; simpl; [|discriminate].
  intros [= <-]. destruct i as [|i]; simpl.
  - intros [= <-]. exists top. split; [exact Htop | reflexivity].
  - intros Hi. exact (IH _ _ eq_refl Hi).
Qed.

(** C8, as stated, fails on two kinds of network.  With a NaN BiBC the list
    the script sorts is not brought into descending order: in [nan_network]
    every degree is 1 and the BiBC values are 0.5, NaN, 0.9 and 0.1 in this
    order; seen from [sorted] no element is below the one after it in the
    reversed list (0.9 < 0.1, nan < 0.9 and 0.5 < nan are all false), the
    list stays as it is, and the node reported is A, although the BiBC of C
    is greater.  A network without nodes has no top node: the script ends
    with IndexError. *)
Lemma nan_bibc_hides_the_greater_node :
  sortedStats false nan_network = prod_map id replace_None <$> nan_network
  /\ main false [nan_network] = Ok [header; [CInt 0; CStr "A"; CInt 1; CFloat (Real 0.5)]]
  /\ ("C", mkRaw 1 (Some (Real 0.9))) ∈ nan_network
  /\ py_lt (Float (Real 0.5)) (Float (Real 0.9)) = true
  /\ below false ("A", mkStats 1 (Float (Real 0.5))) ("C", mkStats 1 (Float (Real 0.9))) = true
  /\ main false [[]] = Raise (BuiltinError "IndexError").
Proof.
  split; [reflexivity|]. split; [reflexivity|]. split.
  - apply list_elem_of_further, list_elem_of_further, list_elem_of_here.
  - split; [reflexivity|]. split; reflexivity.
Qed.

(** C8, amended.  A NoBibc compares lower than every other object and is
    written as the token N/A.  When every network has a node, the script
    writes the header and one row per network, the row of the node that
    [topNode] selects in it; in a network without a NaN BiBC that node comes
    below no node of the network: none exceeds it in the first statistic, and
    none equal to it in the first statistic exceeds it in the second.  With
    the default priority the network
    [{A: {degree: 3, bibc: 0.5}, B: {degree: 5, bibc: None}}] gives the row
    [0, A, 3, 0.5]; with [--flip-priority] the network
    [{A: {degree: 2, bibc: 0.9}, B: {degree: 5, bibc: None}}] gives the row
    [0, B, 5, N/A]. *)
Theorem top_node_is_two_key_maximum :
  (forall o, o <> NoBibc -> py_lt NoBibc o = true /\ py_lt o NoBibc = false)
  /\ bibc_cell NoBibc = CStr "N/A"
  /\ main false [[("A", mkRaw 3 (Some (Real 0.5))); ("B", mkRaw 5 None)]]
     = Ok [header; [CInt 0; CStr "A"; CInt 3; CFloat (Real 0.5)]]
  /\ main true [[("A", mkRaw 2 (Some (Real 0.9))); ("B", mkRaw 5 None)]]
     = Ok [header; [CInt 0; CStr "B"; CInt 5; CStr "N/A"]]
  /\ (forall flipPriority allStats, Forall (fun items => items <> []) allStats ->
      exists tops, main flipPriority allStats = Ok (header :: imap row tops)
        /\ length tops = length allStats
        /\ forall i items, allStats !! i = Some items ->
             exists top, tops !! i = Some top
               /\ topNode flipPriority items = Ok top
               /\ top ∈ prod_map id replace_None <$> items
               /\ (without_nan items ->
                   forall other, other ∈ prod_map id replace_None <$> items ->
                     below flipPriority top other = false)).
Proof.
  split; [|split; [reflexivity|split; [reflexivity|split; [reflexivity|]]]].
  - intros [n|[x| | |]|] Ho; try congruence; split; reflexivity.
  - intros flipPriority allStats Hall.
    destruct (synthesize_all flipPriority allStats Hall) as (tops & Hsyn & Hlen).
    exists tops. split; [unfold main; rewrite Hsyn; reflexivity|]. split; [exact Hlen|].
    intros i items Hi.
    destruct (synthesize_lookup _ _ _ _ _ Hsyn Hi) as (top & Htop & Hlook).
    exists top. split; [exact Hlook|]. split; [exact Htop|].
    split; [exact (topNode_elem _ _ _ Htop)|].
    intros Hnan. exact (topNode_maximum _ _ _ Hnan Htop).
Qed.

Lemma top_node_is_two_key_maximum_witness :
  Forall (fun items => items <> []) two_networks
  /\ without_nan [("C", mkRaw 4 (Some (Real 0.25))); ("D", mkRaw 1 (Some (Real 0.75)));
                  ("E", mkRaw 9 (Some (Real 0.75)))]
  /\ (py_lt NoBibc (Float NaN) = true /\ py_lt (Float NaN) NoBibc = false)
  /\ exists tops top,
       main false two_networks = Ok (header :: imap row tops)
       /\ tops !! 1%nat = Some top
       /\ topNode false [("C", mkRaw 4 (Some (Real 0.25))); ("D", mkRaw 1 (Some (Real 0.75)));
                         ("E", mkRaw 9 (Some (Real 0.75)))] = Ok top
       /\ forall other,
            other ∈ prod_map id replace_None <$>
                      [("C", mkRaw 4 (Some (Real 0.25))); ("D", mkRaw 1 (Some (Real 0.75)));
                       ("E", mkRaw 9 (Some (Real 0.75)))] ->
            below false top other = false.
Proof.
  assert (Hall : Forall (fun items : list (string * raw_stats) => items <> []) two_networks).
  { repeat constructor; discriminate. }
  assert (Hnan : without_nan [("C", mkRaw 4 (Some (Real 0.25)));
                              ("D", mkRaw 1 (Some (Real 0.75)));
                              ("E", mkRaw 9 (Some (Real 0.75)))]).
  { repeat constructor; discriminate. }
  pose proof top_node_is_two_key_maximum as (Hlow & _ & _ & _ & Hrows).
  split; [exact Hall|]. split; [exact Hnan|]. split; [apply Hlow; discriminate|].
  destruct (Hrows false two_networks Hall) as (tops & Hmain & _ & Htops).
  destruct (Htops 1%nat _ eq_refl) as (top & Hlook & Htop & _ & Hmax).
  exists tops, top. split; [exact Hmain|]. split; [exact Hlook|]. split; [exact Htop|].
  exact (Hmax Hnan).
Defined.

Example two_networks_rows :
  main false two_networks
  = Ok [header; [CInt 0; CStr "A"; CInt 3; CFloat (Real 0.5)];
        [CInt 1; CStr "E"; CInt 9; CFloat (Real 0.75)]].
Proof. reflexivity. Qed.

(** ** More on the order and on the sorted list *)

Lemma not_nan_is_nan a : a <> Float NaN -> is_nan a = false.
Proof. destruct a as [n|[x| | |]|]; intros H; try reflexivity. congruence. Qed.

(** X14.  On degrees, BiBC values other than NaN and NoBibc, [<] is a strict
    weak order with NoBibc at the bottom: no object is below itself, [<] is
    transitive, an object that is not NaN is above the lower or below the
    higher of two objects in the order, and nothing is below a NoBibc.  A NaN
    is below nothing and only a NoBibc is below it, so that it may stand
    between two numbers in the order without being above the lower or below
    the higher. *)
Theorem py_lt_strict_weak_order :
  (forall a, py_lt a a = false)
  /\ (forall a b c, py_lt a b = true -> py_lt b c = true -> py_lt a c = true)
  /\ (forall a b c, b <> Float NaN ->
        py_lt a c = true -> py_lt a b = true \/ py_lt b c = true)
  /\ (forall a, py_lt a NoBibc = false)
  /\ (forall a, NoBibc___eq__ a = true <-> a = NoBibc)
  /\ (forall a, py_lt (Float NaN) a = false /\ (py_lt a (Float NaN) = true <-> a = NoBibc))
  /\ (py_lt (Int 1) (Int 2) = true
      /\ py_lt (Int 1) (Float NaN) = false /\ py_lt (Float NaN) (Int 2) = false).
Proof.
  split; [exact py_lt_irrefl|]. split; [exact py_lt_trans|]. split.
  { intros a b c Hb. apply py_lt_between, not_nan_is_nan, Hb. }
  split; [exact py_lt_NoBibc_r|]. split.
  - intros [n|x|]; simpl; split; intros H; try discriminate; reflexivity.
  - split; [|repeat split].
    intros a. split; [apply py_lt_nan_l | apply py_lt_nan_r].
Qed.

Lemma py_lt_strict_weak_order_witness :
  Float Infinity <> Float NaN
  /\ (py_lt NoBibc (Float Infinity) = true \/ py_lt (Float Infinity) (Int 3) = true).
Proof.
  assert (H : Float Infinity <> Float NaN) by discriminate.
  split; [exact H|].
  apply (proj1 (proj2 (proj2 py_lt_strict_weak_order)) NoBibc (Float Infinity) (Int 3) H).
  reflexivity.
Defined.

Section two_keys.
Context {A K : Type}.
Variable lt : K -> K -> bool.
Variable comparable : K -> Prop.
Hypothesis lt_irrefl : forall a, lt a a = false.
Hypothesis lt_trans : forall a b c, comparable a -> comparable b -> comparable c ->
  lt a b = true -> lt b c = true -> lt a c = true.
Hypothesis lt_between : forall a b c, comparable a -> comparable b -> comparable c ->
  lt a c = true -> lt a b = true \/ lt b c = true.
Variables key1 key2 : A -> K.

Lemma insort_lex x t :
  comparable (key1 x) -> Forall (fun y => comparable (key1 y)) t ->
  descending lt key1 t ->
  pairwise (fun a b => lex_lt lt key1 key2 a b = false) t ->
  Forall (fun z => lt (key2 x) (key2 z) = false) t ->
  pairwise (fun a b => lex_lt lt key1 key2 a b = false) (insort lt key1 x t).
Proof.
  intros Hcx. induction t as [|y t IH]; simpl.
  - intros _ _ _ _. split; [constructor | exact I].
  - intros Hct [Hy Hdesc] [Hlex Hrest] Hx. apply Forall_cons in Hx as [Hxy Hx].
    apply Forall_cons in Hct as [Hcy Hct].
    destruct (lt (key1 x) (key1 y)) eqn:Hlt; simpl.
    + split; [|exact (IH Hct Hdesc Hrest Hx)].
      rewrite insort_Permutation. constructor; [|exact Hlex].
      unfold lex_lt.
      rewrite (lt_asym lt comparable lt_irrefl lt_trans _ _ Hcx Hcy Hlt), Hlt. reflexivity.
    + split; [|split; assumption].
      constructor.
      * unfold lex_lt. rewrite Hlt, Hxy. apply andb_false_r.
      * rewrite Forall_forall in Hy, Hx, Hct. apply Forall_forall. intros z Hz.
        unfold lex_lt.
        rewrite (not_lt_trans lt comparable lt_between _ _ _ Hcx Hcy (Hct _ Hz) Hlt (Hy _ Hz)),
          (Hx _ Hz).
        apply andb_false_r.
Qed.

Lemma sorted_reverse_lex s :
  Forall (fun y => comparable (key1 y)) s ->
  descending lt key2 s ->
  pairwise (fun a b => lex_lt lt key1 key2 a b = false) (sorted_reverse lt key1 s).
Proof.
  induction s as [|x s IH]; simpl; [intros _ _; exact I|].
  intros Hs [Hx Hdesc]. apply Forall_cons in Hs as [Hcx Hs]. apply insort_lex.
  - exact Hcx.
  - rewrite sorted_reverse_Permutation. exact Hs.
  - apply (sorted_reverse_descending lt comparable); assumption.
  - exact (IH Hs Hdesc).
  - rewrite sorted_reverse_Permutation. exact Hx.
Qed.
End two_keys.

(** X15.  The sorted list of a network holds the nodes of the network, each
    as often as the network does; when no BiBC of the network is NaN it is in
    descending order of the two statistics: no node comes below a node that
    follows it. *)
Theorem sortedStats_sorted flipPriority items :
  sortedStats flipPriority items ≡ₚ prod_map id replace_None <$> items
  /\ (without_nan items ->
      pairwise (fun a b => below flipPriority a b = false) (sortedStats flipPriority items)).
Proof.
  split; [apply sortedStats_Permutation|].
  intros Hnan. unfold sortedStats, below.
  pose proof (replace_None_comparable items (priority flipPriority).1 Hnan) as Hkey1.
  pose proof (replace_None_comparable items (priority flipPriority).2 Hnan) as Hkey2.
  destruct (priority flipPriority) as [stat1 stat2]. cbn [fst snd] in *.
  apply (sorted_reverse_lex py_lt _ py_lt_irrefl py_lt_trans_comparable py_lt_between_comparable).
  - rewrite sorted_reverse_Permutation. exact Hkey1.
  - apply (sorted_reverse_descending py_lt _ py_lt_irrefl py_lt_trans_comparable
             py_lt_between_comparable). exact Hkey2.
Qed.

Lemma sortedStats_sorted_witness :
  without_nan tied_network
  /\ pairwise (fun a b => below false a b = false)
       [("first", mkStats 4 (Float (Real 0.75))); ("second", mkStats 4 (Float (Real 0.75)));
        ("low", mkStats 1 (Float (Real 0.5))); ("none", mkStats 9 NoBibc)].
Proof.
  assert (Hnan : without_nan tied_network) by (repeat constructor; discriminate).
  split; [exact Hnan|].
  exact (proj2 (sortedStats_sorted false tied_network) Hnan).
Defined.

(** ** More on the rows *)

(** X16.  The script stops with IndexError exactly when one of the networks
    has no node, and then no row is written, the header included; it raises
    no other exception before the file is written. *)
Theorem main_raises_on_empty_network flipPriority allStats :
  (Exists (fun items => items = []) allStats <->
   main flipPriority allStats = Raise (BuiltinError "IndexError"))
  /\ (forall e, main flipPriority allStats = Raise e -> e = BuiltinError "IndexError").
Proof.
  assert (Hsyn : (Exists (fun items => items = []) allStats ->
                  synthesize flipPriority allStats = Raise (BuiltinError "IndexError"))
                 /\ (forall e, synthesize flipPriority allStats = Raise e ->
                      e = BuiltinError "IndexError"
                      /\ Exists (fun items : list (string * raw_stats) => items = []) allStats)).
  { induction allStats as [|items rest [IHex IHraise]]; simpl.
    - split; [intros H; inversion H | discriminate].
    - split.
      + intros Hex. destruct (topNode flipPriority items) as [top|e] eqn:Htop; simpl.
        * apply Exists_cons in Hex as [->|Hex]; [destruct flipPriority; discriminate|].
          rewrite (IHex Hex). reflexivity.
        * apply topNode_raises in Htop as [_ ->]. reflexivity.
      + intros e. destruct (topNode flipPriority items) as [top|e'] eqn:Htop; simpl.
        * destruct (synthesize flipPriority rest) as [tops|e''] eqn:Hrest; simpl; [discriminate|].
          intros [= <-]. destruct (IHraise _ eq_refl) as [-> Hex].
          split; [reflexivity | apply Exists_cons_tl, Hex].
        * intros [= <-]. apply topNode_raises in Htop as [-> ->].
          split; [reflexivity | apply Exists_cons_hd; reflexivity]. }
  destruct Hsyn as [Hex Hraise]. unfold main. split; [split|].
  - intros H. rewrite (Hex H). reflexivity.
  - destruct (synthesize flipPriority allStats) as [tops|e]; simpl; [discriminate|].
    intros [= ->]. exact (proj2 (Hraise _ eq_refl)).
  - intros e. destruct (synthesize flipPriority allStats) as [tops|e']; simpl; [discriminate|].
    intros [= <-]. exact (proj1 (Hraise _ eq_refl)).
Qed.

Lemma main_raises_on_empty_network_witness :
  main true [[("A", mkRaw 3 (Some (Real 0.5)))]; []] = Raise (BuiltinError "IndexError").
Proof.
  apply (proj1 (main_raises_on_empty_network true [[("A", mkRaw 3 (Some (Real 0.5)))]; []])).
  apply Exists_cons_tl, Exists_cons_hd. reflexivity.
Defined.

(** X17.  When the script writes the file, the first row is the header and
    the row after it for the network at index [i] holds [i], then the name,
    the degree and the BiBC of one node of that network as they are in the
    unpickled file, the BiBC being the token N/A exactly when the node has
    none. *)
Theorem rows_report_nodes flipPriority allStats rows :
  main flipPriority allStats = Ok rows ->
  rows !! 0 = Some header
  /\ length rows = S (length allStats)
  /\ forall i items, allStats !! i = Some items ->
       exists node s, (node, s) ∈ items /\ rows !! S i = Some (raw_row i node s).
Proof.
  unfold main. destruct (synthesize flipPriority allStats) as [tops|e] eqn:Hsyn; simpl;
    [|discriminate].
  intros [= <-]. split; [reflexivity|]. split.
  - cbn [length]. rewrite length_imap. f_equal.
    clear -Hsyn. revert tops Hsyn. induction allStats as [|items rest IH]; intros tops; simpl.
    + intros [= <-]. reflexivity.
    + destruct (topNode flipPriority items); simpl; [|discriminate].
      destruct (synthesize flipPriority rest) as [tops'|]; simpl; [|discriminate].
      intros [= <-]. simpl. rewrite (IH _ eq_refl). reflexivity.
  - intros i items Hi.
    destruct (synthesize_lookup _ _ _ _ _ Hsyn Hi) as (top & Htop & Hlook).
    pose proof (topNode_elem _ _ _ Htop) as Hin.
    apply list_elem_of_fmap in Hin as ([node s] & -> & Hin).
    exists node, s. split; [exact Hin|].
    cbn [lookup]. change (imap row tops !! i = Some (raw_row i node s)).
    rewrite list_lookup_imap, Hlook. cbn [fmap option_fmap option_map]. f_equal.
    unfold row, raw_row, replace_None. cbn [prod_map fst snd id].
    destruct (raw_bibc s); reflexivity.
Qed.

Lemma rows_report_nodes_witness :
  exists node s,
    (node, s) ∈ [("C", mkRaw 4 (Some (Real 0.25))); ("D", mkRaw 1 (Some (Real 0.75)));
                 ("E", mkRaw 9 (Some (Real 0.75)))]
    /\ [header; [CInt 0; CStr "A"; CInt 3; CFloat (Real 0.5)];
         [CInt 1; CStr "E"; CInt 9; CFloat (Real 0.75)]] !! 2 = Some (raw_row 1 node s).
Proof.
  assert (Hmain : main false two_networks
                  = Ok [header; [CInt 0; CStr "A"; CInt 3; CFloat (Real 0.5)];
                        [CInt 1; CStr "E"; CInt 9; CFloat (Real 0.75)]]) by reflexivity.
  destruct (rows_report_nodes false two_networks _ Hmain) as (_ & _ & Hrows).
  exact (Hrows 1 _ eq_refl).
Defined.

(** ** Which node wins a tie *)

Lemma first_max_cons {A K} (lt : K -> K -> bool) (key : A -> K) x l :
  first_max lt key (x :: l)
  = match first_max lt key l with
    | None => Some x
    | Some h => if lt (key x) (key h) then Some h else Some x
    end.
Proof. reflexivity. Qed.

Lemma first_max_elem {A K} (lt : K -> K -> bool) (key : A -> K) l h :
  first_max lt key l = Some h -> h ∈ l.
Proof.
  revert h. induction l as [|x l IH]; intros h; [discriminate|].
  rewrite first_max_cons. destruct (first_max lt key l) as [h'|].
  - destruct (lt (key x) (key h')); intros [= <-].
    + apply list_elem_of_further, IH. reflexivity.
    + apply list_elem_of_here.
  - intros [= <-]. apply list_elem_of_here.
Qed.

Lemma head_sorted_reverse {A K} (lt : K -> K -> bool) (key : A -> K) l :
  head (sorted_reverse lt key l) = first_max lt key l.
Proof.
  induction l as [|x l IH]; [reflexivity|].
  rewrite first_max_cons, <- IH. simpl.
  destruct (sorted_reverse lt key l) as [|h rest]; [reflexivity|]. simpl.
  destruct (lt (key x) (key h)); reflexivity.
Qed.

Section first_of_the_best.
Context {A K : Type}.
Variable lt : K -> K -> bool.
Variable comparable : K -> Prop.
Hypothesis lt_irrefl : forall a, lt a a = false.
Hypothesis lt_trans : forall a b c, comparable a -> comparable b -> comparable c ->
  lt a b = true -> lt b c = true -> lt a c = true.
Hypothesis lt_between : forall a b c, comparable a -> comparable b -> comparable c ->
  lt a c = true -> lt a b = true \/ lt b c = true.
Variables key1 key2 : A -> K.

(** Closing a set of comparisons of comparable keys under the laws of the
    order. *)
Ltac order :=
  repeat match goal with
    | H : lt ?a ?a = true |- _ => rewrite lt_irrefl in H; discriminate H
    | H : lt ?a ?b = true, H' : lt ?b ?c = true |- _ =>
        lazymatch goal with
        | _ : lt a c = true |- _ => fail
        | _ => assert (lt a c = true) by (apply (lt_trans a b c); assumption)
        end
    | H : lt ?a ?c = true, H' : lt ?a ?b = false |- _ =>
        lazymatch goal with
        | _ : lt b c = true |- _ => fail
        | _ => assert (lt b c = true)
                 by (destruct (lt_between a b c) as [?|?]; [assumption..|congruence|congruence])
        end
    | H : lt ?a ?c = true, H' : lt ?b ?c = false |- _ =>
        lazymatch goal with
        | _ : lt a b = true |- _ => fail
        | _ => assert (lt a b = true)
                 by (destruct (lt_between a b c) as [?|?]; [assumption..|congruence|congruence])
        end
    end;
  congruence.

(** Inserting by the second key into a list that descends in it moves the
    first maximum of the first key as the order of the two keys says. *)
Lemma first_max_insort x s :
  comparable (key1 x) /\ comparable (key2 x) ->
  Forall (fun y => comparable (key1 y) /\ comparable (key2 y)) s ->
  descending lt key2 s ->
  first_max lt key1 (insort lt key2 x s)
  = match first_max lt key1 s with
    | None => Some x
    | Some h => if lex_lt lt key1 key2 x h then Some h else Some x
    end.
Proof.
  intros [Hx1 Hx2]. induction s as [|y r IH]; [reflexivity|].
  intros Hs [Hy Hdesc]. pose proof Hs as Hall.
  apply Forall_cons in Hs as [[Hy1 Hy2] Hs].
  rewrite Forall_forall in Hall.
  cbn [insort]. destruct (lt (key2 x) (key2 y)) eqn:Hxy.
  - rewrite (first_max_cons lt key1 y (insort lt key2 x r)), (IH Hs Hdesc),
      (first_max_cons lt key1 y r).
    destruct (first_max lt key1 r) as [h|] eqn:Hr.
    + destruct (Hall h (list_elem_of_further _ _ _ (first_max_elem _ _ _ _ Hr))) as [Hh1 Hh2].
      unfold lex_lt.
      destruct (lt (key1 x) (key1 h)) eqn:Hxh, (lt (key1 h) (key1 x)) eqn:Hhx,
        (lt (key1 y) (key1 h)) eqn:Hyh, (lt (key1 y) (key1 x)) eqn:Hyx,
        (lt (key1 x) (key1 y)) eqn:Hxy1, (lt (key2 x) (key2 h)) eqn:Hxh2;
        cbn [orb andb negb]; rewrite ?Hxh, ?Hhx, ?Hyh, ?Hyx, ?Hxy1, ?Hxh2, ?Hxy;
        cbn [orb andb negb]; try reflexivity; exfalso; order.
    + unfold lex_lt.
      destruct (lt (key1 y) (key1 x)) eqn:Hyx, (lt (key1 x) (key1 y)) eqn:Hxy1;
        cbn [orb andb negb]; rewrite ?Hyx, ?Hxy1, ?Hxy;
        cbn [orb andb negb]; try reflexivity; exfalso; order.
  - rewrite (first_max_cons lt key1 x (y :: r)).
    destruct (first_max lt key1 (y :: r)) as [h|] eqn:Hh; [|reflexivity].
    assert (Hxh : lt (key2 x) (key2 h) = false).
    { apply first_max_elem in Hh. apply elem_of_cons in Hh as [->|Hin]; [exact Hxy|].
      rewrite Forall_forall in Hy.
      exact (not_lt_trans lt comparable lt_between _ _ _ Hx2 Hy2
               (proj2 (Hall _ (list_elem_of_further _ _ _ Hin))) Hxy (Hy _ Hin)). }
    unfold lex_lt. rewrite Hxh, andb_false_r, orb_false_r. reflexivity.
Qed.

Lemma first_max_two_sorts l :
  Forall (fun y => comparable (key1 y) /\ comparable (key2 y)) l ->
  first_max lt key1 (sorted_reverse lt key2 l)
  = first_max (lex_lt lt key1 key2) id l.
Proof.
  induction l as [|x l IH]; [reflexivity|].
  intros Hl. apply Forall_cons in Hl as [Hx Hl].
  cbn [sorted_reverse]. rewrite first_max_insort, (IH Hl), first_max_cons; [reflexivity|..].
  - exact Hx.
  - rewrite sorted_reverse_Permutation. exact Hl.
  - apply (sorted_reverse_descending lt comparable); try assumption.
    eapply Forall_impl; [exact Hl|]. intros y [_ Hy]. exact Hy.
Qed.

Lemma lex_lt_trans a b c :
  comparable (key1 a) /\ comparable (key2 a) ->
  comparable (key1 b) /\ comparable (key2 b) ->
  comparable (key1 c) /\ comparable (key2 c) ->
  lex_lt lt key1 key2 a b = true -> lex_lt lt key1 key2 b c = true ->
  lex_lt lt key1 key2 a c = true.
Proof.
  intros [Ha1 Ha2] [Hb1 Hb2] [Hc1 Hc2]. unfold lex_lt.
  destruct (lt (key1 a) (key1 b)) eqn:H1, (lt (key1 b) (key1 a)) eqn:H2,
    (lt (key1 b) (key1 c)) eqn:H3, (lt (key1 c) (key1 b)) eqn:H4,
    (lt (key1 a) (key1 c)) eqn:H5, (lt (key1 c) (key1 a)) eqn:H6,
    (lt (key2 a) (key2 b)) eqn:H7, (lt (key2 b) (key2 c)) eqn:H8,
    (lt (key2 a) (key2 c)) eqn:H9;
    cbn [orb andb negb]; intros Hab Hbc; try reflexivity; try discriminate; exfalso; order.
Qed.

Lemma lex_lt_between a b c :
  comparable (key1 a) /\ comparable (key2 a) ->
  comparable (key1 b) /\ comparable (key2 b) ->
  comparable (key1 c) /\ comparable (key2 c) ->
  lex_lt lt key1 key2 a c = true ->
  lex_lt lt key1 key2 a b = true \/ lex_lt lt key1 key2 b c = true.
Proof.
  intros [Ha1 Ha2] [Hb1 Hb2] [Hc1 Hc2]. unfold lex_lt.
  destruct (lt (key1 a) (key1 b)) eqn:H1, (lt (key1 b) (key1 a)) eqn:H2,
    (lt (key1 b) (key1 c)) eqn:H3, (lt (key1 c) (key1 b)) eqn:H4,
    (lt (key1 a) (key1 c)) eqn:H5, (lt (key1 c) (key1 a)) eqn:H6,
    (lt (key2 a) (key2 b)) eqn:H7, (lt (key2 b) (key2 c)) eqn:H8,
    (lt (key2 a) (key2 c)) eqn:H9;
    cbn [orb andb negb]; intros Hac; try (left; reflexivity); try (right; reflexivity);
    try discriminate; exfalso; order.
Qed.

(** The head of the list sorted by the second key and then by the first is
    the first element of the input that no element exceeds in the two keys:
    the elements before it come below it. *)
Lemma two_key_first l h rest :
  Forall (fun y => comparable (key1 y) /\ comparable (key2 y)) l ->
  sorted_reverse lt key1 (sorted_reverse lt key2 l) = h :: rest ->
  exists before after, l = before ++ h :: after
    /\ Forall (fun y => lex_lt lt key1 key2 y h = true) before
    /\ Forall (fun y => lex_lt lt key1 key2 h y = false) after.
Proof.
  intros Hl Hsorted.
  assert (Hhead : head (sorted_reverse (lex_lt lt key1 key2) id l) = Some h).
  { rewrite head_sorted_reverse, <- (first_max_two_sorts l Hl), <- head_sorted_reverse, Hsorted.
    reflexivity. }
  destruct (sorted_reverse (lex_lt lt key1 key2) id l) as [|h' rest'] eqn:Hlex; [discriminate|].
  injection Hhead as ->.
  exact (sorted_reverse_head (lex_lt lt key1 key2)
           (fun a => comparable (key1 a) /\ comparable (key2 a))
           lex_lt_trans lex_lt_between id _ _ _ Hl Hlex).
Qed.
End first_of_the_best.

(** X18.  In a network without a NaN BiBC, among the nodes that no node
    exceeds in the two statistics the one selected is the first in the order
    of the network: every node before it comes below it, so that of two
    nodes with the same degree and the same BiBC the one listed first is
    reported. *)
Theorem topNode_is_first_of_the_best flipPriority items top :
  without_nan items ->
  topNode flipPriority items = Ok top ->
  exists before after,
    prod_map id replace_None <$> items = before ++ top :: after
    /\ Forall (fun other => below flipPriority other top = true) before
    /\ Forall (fun other => below flipPriority top other = false) after.
Proof.
  intros Hnan. unfold topNode, sortedStats, below.
  pose proof (replace_None_comparable items (priority flipPriority).1 Hnan) as Hkey1.
  pose proof (replace_None_comparable items (priority flipPriority).2 Hnan) as Hkey2.
  destruct (priority flipPriority) as [stat1 stat2]. cbn [fst snd] in *.
  destruct (sorted_reverse py_lt (fun nodeStats => getitem nodeStats.2 stat1) _)
    as [|top' rest] eqn:Hsorted; [discriminate|].
  intros [= <-].
  refine (two_key_first py_lt _ py_lt_irrefl py_lt_trans_comparable py_lt_between_comparable
            _ _ _ _ _ _ Hsorted).
  apply Forall_and. split; assumption.
Qed.

Lemma topNode_is_first_of_the_best_witness :
  without_nan tied_network
  /\ exists before after,
       prod_map id replace_None <$> tied_network
       = before ++ ("first", mkStats 4 (Float (Real 0.75))) :: after
       /\ Forall (fun other => below false other ("first", mkStats 4 (Float (Real 0.75))) = true)
            before
       /\ Forall (fun other => below false ("first", mkStats 4 (Float (Real 0.75))) other = false)
            after.
Proof.
  assert (Hnan : without_nan tied_network) by (repeat constructor; discriminate).
  split; [exact Hnan|].
  apply (topNode_is_first_of_the_best false tied_network _ Hnan). reflexivity.
Defined.
